(** * Swiss-system tournament: standings and pairings

    A shallow embedding of [tournament.py].  The module talks to a
    PostgreSQL store through psycopg2; the store is modelled by its
    tables, by the relational meaning of the two SELECT statements the
    module sends, and by a script of faults that the driver calls may
    raise.  Python exceptions are explicit outcomes. *)

From Stdlib Require Import List ZArith Lia Bool String Arith PeanoNat.
From Stdlib Require Import Permutation.
Import ListNotations.

Local Open Scope string_scope.
Local Open Scope list_scope.
Local Open Scope Z_scope.

(** ** Tables *)

Module Sql.

(** A row of table [players]: [(player_id, player_name)].  Rows are kept
    in insertion order, that is, registration order. *)
Definition player : Type := (Z * string)%type.

(** A row of table [matches]: [(win_player_id, lose_player_id)]. *)
Definition match_row : Type := (Z * Z)%type.

Record Tables : Type := mkTables {
  players : list player;
  matches : list match_row
}.

(** Modelled from the spec: the schema file is not part of the sources.
    The spec's data model gives [player_id] as a unique identifier and
    both columns of a match as required references to players. *)
Definition schema_ok (t : Tables) : Prop :=
  NoDup (map fst (players t)) /\
  forall m, In m (matches t) ->
            In (fst m) (map fst (players t)) /\ In (snd m) (map fst (players t)).

(** ** Relational operators *)

(** [SELECT k, COUNT( * ) FROM ... GROUP BY k]: one row per distinct key. *)
Definition group_count (keys : list Z) : list (Z * Z) :=
  map (fun k => (k, Z.of_nat (count_occ Z.eq_dec keys k))) (nodup Z.eq_dec keys).

(** [l FULL OUTER JOIN r ON on]: every matching pair, every left row
    without a partner padded with NULL on the right, then every right
    row without a partner padded with NULL on the left. *)
Definition full_outer_join {A B : Type} (on : A -> B -> bool)
           (l : list A) (r : list B) : list (option A * option B) :=
  flat_map (fun a => match filter (on a) r with
                     | [] => [(Some a, None)]
                     | bs => map (fun b => (Some a, Some b)) bs
                     end) l
  ++ map (fun b => (None, Some b))
         (filter (fun b => negb (existsb (fun a => on a b) l)) r).

(** [COALESCE(x, y)] and [COALESCE(x, 0)]. *)
Definition coalesce {A : Type} (x y : option A) : option A :=
  match x with Some _ => x | None => y end.

Definition coalesce0 (x : option Z) : Z :=
  match x with Some v => v | None => 0 end.

(** ** Views *)

(** Modelled from the spec: views [winners] and [losers] are defined in
    the schema file, which is not part of the sources.  The query's
    comment says they group the winners and the losers of table
    [matches]; the spec counts appearances as winner and as loser. *)
Definition winners (t : Tables) : list (Z * Z) :=
  group_count (map fst (matches t)).

Definition losers (t : Tables) : list (Z * Z) :=
  group_count (map snd (matches t)).

(** ** The standings query *)

(** A row of the CTE [player_standing]. *)
Record standing_cte : Type := mkCte {
  cte_player_id : option Z;
  cte_wins : Z;
  cte_loss : Z;
  cte_total : Z
}.

(** [SELECT COALESCE(win_player_id, lose_player_id) player_id,
            COALESCE(wins,0) wins, COALESCE(loss,0) loss,
            COALESCE(wins,0)+COALESCE(loss,0) total
     FROM winners FULL OUTER JOIN losers ON win_player_id = lose_player_id] *)
Definition player_standing (t : Tables) : list standing_cte :=
  map (fun wl : option (Z * Z) * option (Z * Z) =>
         let (w, l) := wl in
         mkCte (coalesce (option_map fst w) (option_map fst l))
               (coalesce0 (option_map snd w))
               (coalesce0 (option_map snd l))
               (coalesce0 (option_map snd w) + coalesce0 (option_map snd l)))
      (full_outer_join (fun w l => Z.eqb (fst w) (fst l)) (winners t) (losers t)).

(** A row returned to Python: the tuple [(id, name, wins, matches)].
    The first two columns come from the left side of an outer join and
    are nullable. *)
Record StandingEntry : Type := mkEntry {
  player_id : option Z;
  player_name : option string;
  matches_won : Z;
  total_matches : Z
}.

(** [players.player_id = player_standing.player_id]; a NULL never
    compares equal. *)
Definition on_player_id (p : player) (s : standing_cte) : bool :=
  match cte_player_id s with
  | Some i => Z.eqb (fst p) i
  | None => false
  end.

(** [SELECT players.player_id, player_name, COALESCE(wins,0) matches_won,
            COALESCE(total,0) total_matches
     FROM players FULL OUTER JOIN player_standing
          ON players.player_id = player_standing.player_id]

    The statement has no ORDER BY: the rows are listed here in the order
    in which the join produces them, and the store may return them in
    any other order (see [RowOrder] below). *)
Definition plyr_stnd_rows (t : Tables) : list StandingEntry :=
  map (fun ps : option player * option standing_cte =>
         let (p, s) := ps in
         mkEntry (option_map fst p) (option_map snd p)
                 (coalesce0 (option_map cte_wins s))
                 (coalesce0 (option_map cte_total s)))
      (full_outer_join on_player_id (players t) (player_standing t)).

(** [SELECT COUNT(player_id) FROM players]: one row, one column. *)
Definition count_rows (t : Tables) : list Z :=
  [Z.of_nat (List.length (players t))].

End Sql.

Import Sql.

(** ** Python outcomes *)

(** The exceptions the module can meet.  [DatabaseError] stands for
    psycopg2's class of that name and its subclasses, which is what the
    [except psycopg2.DatabaseError] clauses catch; [PyExc cls msg] is an
    exception of any other class [cls]; [SystemExit] is what [sys.exit]
    raises. *)
Inductive exn : Type :=
| DatabaseError (msg : string)
| PyExc (cls msg : string)
| SystemExit (code : Z).

Inductive outcome (A : Type) : Type :=
| Return (a : A)
| Raise (e : exn).

Arguments Return {A} a.
Arguments Raise {A} e.

(** The clause [except psycopg2.DatabaseError, e]: whether it catches
    the exception, and [str(e)] when it does. *)
Definition as_DatabaseError (e : exn) : option string :=
  match e with DatabaseError msg => Some msg | _ => None end.

(** Computations over a state [S] that return or raise. *)
Definition M (S A : Type) : Type := S -> outcome A * S.

Definition ret {S A : Type} (a : A) : M S A := fun s => (Return a, s).

Definition raise {S A : Type} (e : exn) : M S A := fun s => (Raise e, s).

Definition bind {S A B : Type} (c : M S A) (k : A -> M S B) : M S B :=
  fun s => match c s with
           | (Return a, s') => k a s'
           | (Raise e, s') => (Raise e, s')
           end.

Declare Scope py_scope.
Delimit Scope py_scope with py.
Notation "x <- c ;; k" := (bind c (fun x => k))
  (at level 61, c at next level, right associativity) : py_scope.
Notation "c ;;; k" := (bind c (fun _ => k))
  (at level 61, right associativity) : py_scope.
Local Open Scope py_scope.

(** [try: body  except C, e: handler  finally: fin].  The handler runs
    when the body raises an exception of the caught class; the [finally]
    block runs in every case, and what the body or the handler returned
    or raised stands unless the [finally] block raises itself. *)
Definition try_except_finally {S A E : Type} (body : M S A)
           (catch : exn -> option E) (handler : E -> M S A)
           (fin : M S unit) : M S A :=
  fun s =>
    let (r1, s1) := body s in
    let (r2, s2) := match r1 with
                    | Raise e => match catch e with
                                 | Some c => handler c s1
                                 | None => (r1, s1)
                                 end
                    | Return _ => (r1, s1)
                    end in
    let (r3, s3) := fin s2 in
    match r3 with
    | Return _ => (r2, s3)
    | Raise e' => (Raise e', s3)
    end.

(** ** The store *)

(** The statement carries no ORDER BY, so the order of the rows it
    returns is the store's choice: any rearrangement of the join. *)
Record RowOrder : Type := mkOrder {
  reorder : list StandingEntry -> list StandingEntry;
  reorder_perm : forall l, Permutation (reorder l) l
}.

(** The order in which the join itself lists the rows. *)
Definition join_order : RowOrder :=
  mkOrder (fun l => l) (fun l => Permutation_refl l).

(** What the driver was asked to do, most recent call first. *)
Inductive event : Type :=
| EConnect (dsn : string)
| ECursor
| EExecute (statement : string)
| EFetchall
| ERollback
| EClose
| EPrint (line : string).

Record World : Type := mkWorld {
  tables : Tables;
  order : RowOrder;
  (** what each coming driver call does: [Some e] raises [e], [None]
      (or an exhausted script) succeeds *)
  script : list (option exn);
  trace : list event
}.

(** The frame of a function that keeps the connection in its local
    variable [db]. *)
Record Frame : Type := mkFrame {
  world : World;
  db : option unit
}.

Definition step_world (ev : event) (w : World) : option exn * World :=
  (match script w with Some e :: _ => Some e | _ => None end,
   mkWorld (tables w) (order w) (tl (script w)) (ev :: trace w)).

(** One call into psycopg2: logged, and failing when the script says so. *)
Definition driver_call {A : Type} (ev : event) (v : World -> A) : M Frame A :=
  fun f =>
    let (flt, w') := step_world ev (world f) in
    (match flt with Some e => Raise e | None => Return (v (world f)) end,
     mkFrame w' (db f)).

(** The two SELECT statements of the module, and the type of the rows
    each returns: a one-column count, or a standings tuple. *)
Inductive query : Type :=
| count_q
| plyr_stnd_q.

Definition row_type (q : query) : Type :=
  match q with
  | count_q => Z
  | plyr_stnd_q => StandingEntry
  end.

Definition statement_of (q : query) : string :=
  match q with
  | count_q => "count_q"
  | plyr_stnd_q => "plyr_stnd_q"
  end.

Definition run_query (q : query) (w : World) : list (row_type q) :=
  match q return list (row_type q) with
  | count_q => count_rows (tables w)
  | plyr_stnd_q => reorder (order w) (plyr_stnd_rows (tables w))
  end.

Definition psycopg2_connect (dsn : string) : M Frame unit :=
  driver_call (EConnect dsn) (fun _ => tt).

Definition db_cursor : M Frame unit := driver_call ECursor (fun _ => tt).

(** [cur.execute(q)]: the cursor then holds the statement's rows. *)
Definition cur_execute (q : query) : M Frame (list (row_type q)) :=
  driver_call (EExecute (statement_of q)) (run_query q).

Definition cur_fetchall {R : Type} (held : list R) : M Frame (list R) :=
  driver_call EFetchall (fun _ => held).

Definition db_rollback : M Frame unit := driver_call ERollback (fun _ => tt).

Definition db_close : M Frame unit := driver_call EClose (fun _ => tt).

Definition print (line : string) : M Frame unit :=
  fun f =>
    let w := world f in
    (Return tt,
     mkFrame (mkWorld (tables w) (order w) (script w) (EPrint line :: trace w))
             (db f)).

Definition sys_exit {A : Type} (code : Z) : M Frame A := raise (SystemExit code).

Definition assign_db (c : option unit) : M Frame unit :=
  fun f => (Return tt, mkFrame (world f) c).

Definition read_db : M Frame (option unit) := fun f => (Return (db f), f).

(** A function body run in a fresh frame, [db=None]. *)
Definition call {A : Type} (body : M Frame A) : M World A :=
  fun w => let (r, f) := body (mkFrame w None) in (r, world f).

(** ** tournament.py *)

Definition DB_NAME : string := "tournament".

(** [connect]: a connection and its cursor. *)
Definition connect (dbname : string) : M Frame (unit * unit) :=
  d <- psycopg2_connect ("dbname=" ++ dbname)%string ;;
  cur <- db_cursor ;;
  ret (d, cur).

(** The [except psycopg2.DatabaseError, e] clause, the same text in every
    function of the module. *)
Definition on_DatabaseError {A : Type} (e : string) : M Frame A :=
  d <- read_db ;;
  (match d with Some _ => db_rollback | None => ret tt end) ;;;
  print ("DB error...rolled back " ++ e)%string ;;;
  sys_exit 1.

(** The [finally] clause, likewise shared. *)
Definition close_db : M Frame unit :=
  d <- read_db ;;
  match d with Some _ => db_close | None => ret tt end.

(** [rows[i]]. *)
Definition getitem {S A : Type} (l : list A) (i : nat) : M S A :=
  match nth_error l i with
  | Some a => ret a
  | None => raise (PyExc "IndexError" "list index out of range")
  end.

Definition countPlayers : M World Z :=
  call (try_except_finally
          (c <- connect DB_NAME ;;
           assign_db (Some (fst c)) ;;;
           held <- cur_execute count_q ;;
           rows <- cur_fetchall held ;;
           n <- getitem rows 0 ;;
           ret n)
          as_DatabaseError on_DatabaseError close_db).

Definition playerStandings : M World (list StandingEntry) :=
  call (try_except_finally
          (c <- connect DB_NAME ;;
           assign_db (Some (fst c)) ;;;
           held <- cur_execute plyr_stnd_q ;;
           rows <- cur_fetchall held ;;
           let player_stand_list := map (fun row => row) rows in
           ret player_stand_list)
          as_DatabaseError on_DatabaseError close_db).

(** [xrange(start, stop, step)] for a positive step. *)
Definition xrange (start stop step : nat) : list nat :=
  map (fun k => start + k * step)%nat
      (seq 0 ((stop - start + (step - 1)) / step)).

(** A tuple [(id1, name1, id2, name2)]. *)
Definition Pairing : Type :=
  (option Z * option string * option Z * option string)%type.

Fixpoint comprehension {S A B : Type} (f : A -> M S B) (l : list A)
  : M S (list B) :=
  match l with
  | [] => ret []
  | a :: l' => b <- f a ;; bs <- comprehension f l' ;; ret (b :: bs)
  end.

(** The tuple built for index [i] by the list comprehension of
    [swissPairings]. *)
Definition pair_at {S : Type} (standings : list StandingEntry) (i : nat)
  : M S Pairing :=
  a <- getitem standings i ;;
  b <- getitem standings (i + 1) ;;
  ret (player_id a, player_name a, player_id b, player_name b).

(** The part of [swissPairings] that follows the call of
    [playerStandings]. *)
Definition pair_standings {S : Type} (standings : list StandingEntry)
  : M S (list Pairing) :=
  if negb (Nat.eqb (List.length standings mod 2) 0)
  then raise (PyExc "Exception" "Need even number of players for pairing.")
  else
    pair_result <-
      comprehension (pair_at standings) (xrange 0 (List.length standings) 2) ;;
    ret pair_result.

Definition swissPairings : M World (list Pairing) :=
  standings <- playerStandings ;;
  pair_standings standings.

(** ** What the spec counts *)




(** [p] takes part in no match. *)
Definition unplayed (t : Tables) (p : Z) : Prop :=
  forall m, In m (matches t) -> fst m <> p /\ snd m <> p.

Definition no_faults (s : list (option exn)) : Prop :=
  Forall (fun f => f = None) s.

(** ** Derived quantities used to describe the rows *)

(** Matches won and lost by id [k], as the views count them. *)
Definition won (t : Tables) (k : Z) : Z :=
  Z.of_nat (count_occ Z.eq_dec (map fst (matches t)) k).

Definition lost (t : Tables) (k : Z) : Z :=
  Z.of_nat (count_occ Z.eq_dec (map snd (matches t)) k).

(** The ids that occur in some match: the winners, then the losers who
    never won. *)
Definition cte_keys (t : Tables) : list Z :=
  nodup Z.eq_dec (map fst (matches t))
  ++ filter (fun k => negb (existsb (Z.eqb k) (map fst (matches t))))
            (nodup Z.eq_dec (map snd (matches t))).

Definition cte_row (t : Tables) (k : Z) : standing_cte :=
  mkCte (Some k) (won t k) (lost t k) (won t k + lost t k).

(** The row of a registered player. *)
Definition entry_of (t : Tables) (p : player) : StandingEntry :=
  mkEntry (Some (fst p)) (Some (snd p))
          (won t (fst p)) (won t (fst p) + lost t (fst p)).

(** The row of an id that occurs in a match and is not registered. *)
Definition stray_entry (s : standing_cte) : StandingEntry :=
  mkEntry None None (cte_wins s) (cte_total s).

Definition strays (t : Tables) : list standing_cte :=
  filter (fun s => negb (existsb (fun p => on_player_id p s) (players t)))
         (player_standing t).

(** The rows the store hands back for the standings statement. *)
Definition fetched (w : World) : list StandingEntry :=
  reorder (order w) (plyr_stnd_rows (tables w)).

Definition zsum (f : Z -> Z) (ids : list Z) : Z :=
  fold_right (fun i acc => f i + acc) 0 ids.

Definition pair_of (a b : StandingEntry) : Pairing :=
  (player_id a, player_name a, player_id b, player_name b).

(** Consecutive, non-overlapping pairs of a list. *)
Fixpoint adjacent_pairs (l : list StandingEntry) : list Pairing :=
  match l with
  | a :: b :: r => pair_of a b :: adjacent_pairs r
  | _ => []
  end.

Definition id1 (p : Pairing) : option Z := fst (fst (fst p)).
Definition id2 (p : Pairing) : option Z := snd (fst p).

Definition same_id (x y : option Z) : bool :=
  match x, y with
  | Some i, Some j => Z.eqb i j
  | None, None => true
  | _, _ => false
  end.

(** The pair lists the id, as its first or as its second member. *)
Definition in_pair (pid : option Z) (p : Pairing) : bool :=
  same_id pid (id1 p) || same_id pid (id2 p).

(** The list is in descending order of wins. *)
Fixpoint wins_descending (l : list StandingEntry) : bool :=
  match l with
  | a :: r => match r with
              | b :: _ => Z.geb (matches_won a) (matches_won b)
              | [] => true
              end && wins_descending r
  | [] => true
  end.

(** ** Sample stores *)

(** A store that returns rows in join order and follows the script [s]. *)
Definition store (t : Tables) (s : list (option exn)) : World :=
  mkWorld t join_order s [].

(** Players A, B, C, D with ids 1 to 4; 1 beat 2 and 3 beat 4. *)
Definition four_players : Tables :=
  mkTables [(1, "A"); (2, "B"); (3, "C"); (4, "D")] [(1, 2); (3, 4)].

(** Three players, no match. *)
Definition three_players : Tables :=
  mkTables [(1, "A"); (2, "B"); (3, "C")] [].

(** Two players, and matches that name the ids 7 and 9, which are not
    registered. *)
Definition unregistered_sample : Tables :=
  mkTables [(1, "A"); (2, "B")] [(1, 7); (7, 2); (9, 1)].

(** The store fails on [cur.execute]. *)
Definition failing_execute : list (option exn) :=
  [None; None; Some (DatabaseError "connection lost")].

(** ** Statements that change the tables *)

(** The four statements the module sends besides its SELECTs.

    Modelled from the spec: the schema file is not part of the sources, so
    what the statements do to the tables is taken from their SQL text,
    the serial id that the store gives to a new row of [players] is the
    store's choice and is carried by the statement as [assigned], and a
    constraint that the store enforces shows as a fault of the script. *)
Inductive statement : Type :=
| del_match_q                            (* DELETE FROM matches *)
| del_plyr_q                             (* DELETE FROM players *)
| add_plyr_q (assigned : Z) (name : string)
    (* INSERT INTO players (player_name) VALUES (%s) *)
| match_result_q (winner loser : Z).
    (* INSERT INTO matches (win_player_id,lose_player_id) VALUES (%s,%s) *)

Definition statement_text (st : statement) : string :=
  match st with
  | del_match_q => "del_match_q"
  | del_plyr_q => "del_plyr_q"
  | add_plyr_q _ _ => "add_plyr_q"
  | match_result_q _ _ => "match_result_q"
  end.

Definition apply_statement (st : statement) (t : Tables) : Tables :=
  match st with
  | del_match_q => mkTables (players t) []
  | del_plyr_q => mkTables [] (matches t)
  | add_plyr_q assigned name =>
      mkTables (players t ++ [(assigned, name)]) (matches t)
  | match_result_q winner loser =>
      mkTables (players t) (matches t ++ [(winner, loser)])
  end.

(** The frame of a function that writes: its connection may hold work
    that is not committed yet. *)
Record TxFrame : Type := mkTx {
  frame : Frame;
  uncommitted : option Tables
}.

(** The tables as the connection sees them. *)
Definition view (x : TxFrame) : Tables :=
  match uncommitted x with
  | Some t => t
  | None => tables (world (frame x))
  end.

Definition in_frame {A : Type} (c : M Frame A) : M TxFrame A :=
  fun x => let (r, f) := c (frame x) in (r, mkTx f (uncommitted x)).

Definition discard_work : M TxFrame unit :=
  fun x => (Return tt, mkTx (frame x) None).

(** [cur.execute(st)] for a statement that writes: on success the change
    is held by the open transaction. *)
Definition cur_execute_write (st : statement) : M TxFrame unit :=
  in_frame (driver_call (EExecute (statement_text st)) (fun _ => tt)) ;;;
  (fun x => (Return tt, mkTx (frame x) (Some (apply_statement st (view x))))).

(** [db.commit()], which the driver sends as the statement COMMIT: on
    success the tables become what the connection sees. *)
Definition db_commit : M TxFrame unit :=
  fun x =>
    let w := world (frame x) in
    let (flt, w') := step_world (EExecute "COMMIT") w in
    match flt with
    | Some e => (Raise e, mkTx (mkFrame w' (db (frame x))) (uncommitted x))
    | None =>
        (Return tt,
         mkTx (mkFrame (mkWorld (view x) (order w') (script w') (trace w'))
                       (db (frame x)))
              None)
    end.

(** [db.rollback()] and [db.close()] drop what is not committed. *)
Definition db_rollback_write : M TxFrame unit :=
  in_frame db_rollback ;;; discard_work.

Definition db_close_write : M TxFrame unit :=
  in_frame db_close ;;; discard_work.

(** The [except] and [finally] clauses of the functions that write. *)
Definition on_DatabaseError_write {A : Type} (e : string) : M TxFrame A :=
  d <- in_frame read_db ;;
  (match d with Some _ => db_rollback_write | None => ret tt end) ;;;
  in_frame (print ("DB error...rolled back " ++ e)%string) ;;;
  raise (SystemExit 1).

Definition close_db_write : M TxFrame unit :=
  d <- in_frame read_db ;;
  match d with Some _ => db_close_write | None => ret tt end.

Definition call_write {A : Type} (body : M TxFrame A) : M World A :=
  fun w => let (r, x) := body (mkTx (mkFrame w None) None) in
           (r, world (frame x)).

(** [db_transact]: returns the connection, closed by then. *)
Definition db_transact (query : statement) (dbname : string)
  : M World (option unit) :=
  call_write (try_except_finally
                (c <- in_frame (connect dbname) ;;
                 in_frame (assign_db (Some (fst c))) ;;;
                 cur_execute_write query ;;;
                 db_commit ;;;
                 d <- in_frame read_db ;;
                 ret d)
                as_DatabaseError on_DatabaseError_write close_db_write).

Definition deleteMatches : M World unit :=
  db_transact del_match_q DB_NAME ;;; ret tt.

Definition deletePlayers : M World unit :=
  db_transact del_plyr_q DB_NAME ;;; ret tt.

(** [registerPlayer]; [clean] stands for [bleach.clean], a library that
    is not part of the sources. *)
Definition registerPlayer (clean : string -> string) (assigned : Z)
           (name : string) : M World unit :=
  let name := clean name in
  call_write (try_except_finally
                (c <- in_frame (connect DB_NAME) ;;
                 in_frame (assign_db (Some (fst c))) ;;;
                 cur_execute_write (add_plyr_q assigned name) ;;;
                 db_commit)
                as_DatabaseError on_DatabaseError_write close_db_write).

Definition reportMatch (winner loser : Z) : M World unit :=
  call_write (try_except_finally
                (c <- in_frame (connect DB_NAME) ;;
                 in_frame (assign_db (Some (fst c))) ;;;
                 cur_execute_write (match_result_q winner loser) ;;;
                 db_commit)
                as_DatabaseError on_DatabaseError_write close_db_write).

(** ** Vocabulary for the further properties *)

(** The first [n] driver calls of the script all succeed. *)
Definition calls_succeed (n : nat) (s : list (option exn)) : bool :=
  forallb (fun f => match f with None => true | Some _ => false end)
          (firstn n s).

Definition is_close (ev : event) : bool :=
  match ev with EClose => true | _ => false end.

(** How often a connection was closed. *)
Definition closes (tr : list event) : nat :=
  List.length (filter is_close tr).

(** An outcome with its value dropped. *)
Definition forget {A : Type} (r : outcome A) : outcome unit :=
  match r with Return _ => Return tt | Raise e => Raise e end.

(** The two players of a pair, each as [(id, name)]. *)
Definition members (p : Pairing) : list (option Z * option string) :=
  match p with
  | (i1, n1, i2, n2) => [(i1, n1); (i2, n2)]
  end.

Definition sum_played (l : list StandingEntry) : Z :=
  fold_right (fun e acc => total_matches e + acc) 0 l.

(** The entry has no id. *)
Definition null_id (e : StandingEntry) : bool :=
  match player_id e with None => true | Some _ => false end.

(** The ids named by some match that are not registered, each once. *)
Definition unregistered (t : Tables) : list Z :=
  nodup Z.eq_dec
        (filter (fun k => negb (existsb (Z.eqb k) (map fst (players t))))
                (map fst (matches t) ++ map snd (matches t))).

(** * Facts about the relational operators *)

Section JoinFacts.

Context {A B : Type}.
Variable on : A -> B -> bool.

Lemma filter_at_most_one (f : B -> bool) (r : list B) :
  (List.length (filter f r) <= 1)%nat ->
  filter f r = match find f r with Some b => [b] | None => [] end.
Proof.
  induction r as [|x r IH]; simpl; intros Hlen; [reflexivity|].
  destruct (f x); simpl in Hlen.
  - destruct (filter f r); [reflexivity | simpl in Hlen; lia].
  - auto.
Qed.

(** When a left row has at most one partner, the join lists it once,
    beside that partner or beside NULL. *)
Lemma join_left_functional (l : list A) (r : list B) :
  (forall a, In a l -> (List.length (filter (on a) r) <= 1)%nat) ->
  full_outer_join on l r =
  map (fun a => (Some a, find (on a) r)) l
  ++ map (fun b => (None, Some b))
         (filter (fun b => negb (existsb (fun a => on a b) l)) r).
Proof.
  intros Hone. unfold full_outer_join. f_equal.
  set (rows := fun a => match filter (on a) r with
                        | [] => [(Some a, @None B)]
                        | bs => map (fun b => (Some a, Some b)) bs
                        end).
  assert (Hrow : forall a, In a l -> rows a = [(Some a, find (on a) r)]).
  { intros a Hin. unfold rows.
    rewrite (filter_at_most_one (on a) r) by (apply Hone; exact Hin).
    now destruct (find (on a) r). }
  clear Hone. induction l as [|a l IH]; [reflexivity|].
  change (flat_map rows (a :: l)) with (rows a ++ flat_map rows l).
  rewrite Hrow by now left.
  rewrite IH by (intros; apply Hrow; now right).
  reflexivity.
Qed.

End JoinFacts.

Section KeyFacts.



(** Looking the key [k] up among rows made from the keys [ks], with a
    test [f] that recognises the row of [k]. *)
Lemma find_keyed {X : Type} (row : Z -> X) (f : X -> bool) (ks : list Z) (k : Z) :
  (forall j, f (row j) = Z.eqb k j) ->
  find f (map row ks) = if existsb (Z.eqb k) ks then Some (row k) else None.
Proof.
  intros Hkey. induction ks as [|j ks IH]; simpl; [reflexivity|].
  rewrite Hkey. destruct (Z.eqb k j) eqn:E; simpl.
  - apply Z.eqb_eq in E. now subst.
  - exact IH.
Qed.

Lemma filter_keyed_le1 {X : Type} (row : Z -> X) (f : X -> bool) (ks : list Z) (k : Z) :
  (forall j, f (row j) = Z.eqb k j) -> NoDup ks ->
  (List.length (filter f (map row ks)) <= 1)%nat.
Proof.
  intros Hkey Hnd. induction Hnd as [|j ks Hnotin Hnd IH]; simpl; [lia|].
  rewrite Hkey. destruct (Z.eqb k j) eqn:E; simpl; [|exact IH].
  apply Z.eqb_eq in E. subst j.
  assert (Hnil : filter f (map row ks) = []).
  { clear IH Hnd. induction ks as [|i ks IH]; simpl; [reflexivity|].
    rewrite Hkey. destruct (Z.eqb k i) eqn:E.
    - apply Z.eqb_eq in E. subst. exfalso. apply Hnotin. now left.
    - apply IH. intros Hin. apply Hnotin. now right. }
  rewrite Hnil. simpl. lia.
Qed.

Lemma existsb_eqb_In (ks : list Z) (k : Z) :
  existsb (Z.eqb k) ks = true <-> In k ks.
Proof.
  rewrite existsb_exists. split.
  - intros [x [Hin E]]. apply Z.eqb_eq in E. now subst.
  - intros Hin. exists k. split; [assumption | apply Z.eqb_refl].
Qed.

Lemma existsb_eqb_nodup (ks : list Z) (k : Z) :
  existsb (Z.eqb k) (nodup Z.eq_dec ks) = existsb (Z.eqb k) ks.
Proof.
  apply eq_true_iff_eq. rewrite !existsb_eqb_In. apply nodup_In.
Qed.

Lemma count_occ_absent (ks : list Z) (k : Z) :
  existsb (Z.eqb k) ks = false -> count_occ Z.eq_dec ks k = 0%nat.
Proof.
  intros H. apply count_occ_not_In. intros Hin.
  apply existsb_eqb_In in Hin. congruence.
Qed.

End KeyFacts.

(** * The standings query, row by row *)

Section Standings.

Variable t : Tables.

Lemma existsb_key_rows (c : Z -> Z) (ks : list Z) (k : Z) :
  existsb (fun a : Z * Z => Z.eqb (fst a) k) (map (fun j => (j, c j)) ks)
  = existsb (Z.eqb k) ks.
Proof.
  induction ks as [|j ks IH]; simpl; [reflexivity|].
  now rewrite IH, (Z.eqb_sym j k).
Qed.

Lemma filter_map_comm {X Y : Type} (f : Y -> bool) (g : X -> Y) (l : list X) :
  filter f (map g l) = map g (filter (fun x => f (g x)) l).
Proof.
  induction l as [|x l IH]; simpl; [reflexivity|].
  destruct (f (g x)); simpl; now rewrite IH.
Qed.

(** The CTE has one row for each id that occurs in a match, with that
    id's numbers of matches won and lost. *)
Lemma player_standing_rows :
  player_standing t = map (cte_row t) (cte_keys t).
Proof.
  unfold player_standing, winners, losers, group_count, cte_keys.
  rewrite join_left_functional.
  2:{ intros a _.
      apply (filter_keyed_le1
               (fun k => (k, Z.of_nat (count_occ Z.eq_dec (map snd (matches t)) k)))
               _ _ (fst a)); [reflexivity | apply NoDup_nodup]. }
  rewrite !map_app, !map_map. f_equal.
  - apply map_ext. intros k. cbn [fst snd].
    rewrite (find_keyed
               (fun j => (j, Z.of_nat (count_occ Z.eq_dec (map snd (matches t)) j)))
               _ _ k) by reflexivity.
    rewrite existsb_eqb_nodup. unfold cte_row, won, lost.
    destruct (existsb (Z.eqb k) (map snd (matches t))) eqn:E; simpl.
    + reflexivity.
    + rewrite (count_occ_absent _ _ E). reflexivity.
  - rewrite filter_map_comm, map_map.
    erewrite filter_ext.
    2:{ intros k. cbn [fst]. rewrite existsb_key_rows, existsb_eqb_nodup.
        reflexivity. }
    apply map_ext_in. intros k Hin. apply filter_In in Hin.
    destruct Hin as [_ Hno]. apply negb_true_iff in Hno.
    unfold cte_row, won, lost. simpl.
    rewrite (count_occ_absent _ _ Hno). reflexivity.
Qed.

Lemma cte_keys_In (k : Z) :
  In k (cte_keys t) <-> In k (map fst (matches t)) \/ In k (map snd (matches t)).
Proof.
  unfold cte_keys. rewrite in_app_iff, filter_In, !nodup_In, negb_true_iff.
  destruct (existsb (Z.eqb k) (map fst (matches t))) eqn:E.
  - apply existsb_eqb_In in E. intuition congruence.
  - intuition.
Qed.

Lemma cte_keys_NoDup : NoDup (cte_keys t).
Proof.
  unfold cte_keys. apply NoDup_app.
  - apply NoDup_nodup.
  - apply NoDup_filter, NoDup_nodup.
  - intros k Hw Hl. apply nodup_In in Hw. apply filter_In in Hl.
    destruct Hl as [_ Hno]. apply negb_true_iff in Hno.
    apply existsb_eqb_In in Hw. congruence.
Qed.

Lemma on_player_id_row (p : player) (k : Z) :
  on_player_id p (cte_row t k) = Z.eqb (fst p) k.
Proof. reflexivity. Qed.

Lemma absent_key_zero (k : Z) :
  existsb (Z.eqb k) (cte_keys t) = false -> won t k = 0 /\ lost t k = 0.
Proof.
  intros E. unfold won, lost.
  assert (Hno : ~ In k (cte_keys t)).
  { intros Hin. apply existsb_eqb_In in Hin. congruence. }
  rewrite cte_keys_In in Hno.
  split; apply (f_equal Z.of_nat (y := 0%nat)), count_occ_not_In; tauto.
Qed.

(** The statement's rows: one for every registered player, in the
    order of table [players], then the strays. *)
Lemma plyr_stnd_rows_eq :
  plyr_stnd_rows t = map (entry_of t) (players t) ++ map stray_entry (strays t).
Proof.
  unfold plyr_stnd_rows, strays.
  rewrite join_left_functional.
  2:{ intros p _. rewrite player_standing_rows.
      apply (filter_keyed_le1 (cte_row t) _ _ (fst p));
        [apply on_player_id_row | apply cte_keys_NoDup]. }
  rewrite map_app, !map_map. f_equal.
  apply map_ext. intros p. rewrite player_standing_rows.
  rewrite (find_keyed (cte_row t) _ _ (fst p)) by apply on_player_id_row.
  unfold entry_of.
  destruct (existsb (Z.eqb (fst p)) (cte_keys t)) eqn:E; simpl.
  - reflexivity.
  - destruct (absent_key_zero _ E) as [-> ->]. reflexivity.
Qed.

(** With the schema's references in force there are no strays. *)
Lemma no_strays : schema_ok t -> (strays t) = [].
Proof.
  intros [_ Hfk]. unfold strays. rewrite player_standing_rows.
  rewrite filter_map_comm.
  replace (filter _ (cte_keys t)) with (@nil Z); [reflexivity|].
  symmetry. apply List.length_zero_iff_nil.
  assert (Hall : forall k, In k (cte_keys t) ->
            negb (existsb (fun p => on_player_id p (cte_row t k)) (players t)) = false).
  { intros k Hin. apply negb_false_iff, existsb_exists.
    assert (Hreg : In k (map fst (players t))).
    { apply cte_keys_In in Hin. destruct Hin as [Hin|Hin];
        apply in_map_iff in Hin; destruct Hin as [m [<- Hm]];
        apply Hfk in Hm; tauto. }
    apply in_map_iff in Hreg. destruct Hreg as [p [<- Hp]].
    exists p. split; [exact Hp|]. rewrite on_player_id_row. apply Z.eqb_refl. }
  induction (cte_keys t) as [|k ks IH]; [reflexivity|]. simpl.
  rewrite Hall by now left. apply IH. intros; apply Hall; now right.
Qed.

Lemma plyr_stnd_rows_schema :
  schema_ok t -> plyr_stnd_rows t = map (entry_of t) (players t).
Proof.
  intros Hok. rewrite plyr_stnd_rows_eq, (no_strays Hok). apply app_nil_r.
Qed.



End Standings.

(** * The functions of the module, run against the store *)

Section Runs.

Lemma no_faults_cons (f : option exn) (s : list (option exn)) :
  no_faults (f :: s) -> f = None /\ no_faults s.
Proof. intros H. inversion H; subst. now split. Qed.

Ltac next_call s H :=
  destruct s as [|[?e|] s];
  [ | apply no_faults_cons in H; destruct H as [H _]; discriminate H
    | apply no_faults_cons in H; destruct H as [_ H] ].

(** With a store that does not fail, [playerStandings] returns the
    fetched rows. *)
Lemma playerStandings_ok (w : World) :
  no_faults (script w) -> fst (playerStandings w) = Return (fetched w).
Proof.
  destruct w as [t o s tr]. unfold fetched. simpl. intros H.
  next_call s H; [now cbn; rewrite map_id|].
  next_call s H; [now cbn; rewrite map_id|].
  next_call s H; [now cbn; rewrite map_id|].
  next_call s H; [now cbn; rewrite map_id|].
  next_call s H; [now cbn; rewrite map_id|].
  cbn. now rewrite map_id.
Qed.

Ltac split_script :=
  repeat match goal with
         | |- context [match ?s with [] => _ | _ :: _ => _ end] =>
             is_var s; destruct s as [|[[?m|?c ?m|?n]|] s]; cbn
         end.

(** Whenever [playerStandings] returns, it returns the fetched rows. *)
Lemma playerStandings_returns (w : World) (l : list StandingEntry) :
  fst (playerStandings w) = Return l -> l = fetched w.
Proof.
  destruct w as [t o s tr]. unfold fetched.
  unfold playerStandings, call, try_except_finally, connect, bind,
    psycopg2_connect, db_cursor, driver_call, step_world.
  cbn. split_script; intros H; try discriminate H.
  all: injection H as <-; now rewrite map_id.
Qed.

Lemma fetched_perm (w : World) :
  Permutation (fetched w) (plyr_stnd_rows (tables w)).
Proof. apply reorder_perm. Qed.

Lemma fetched_In (w : World) (e : StandingEntry) :
  In e (fetched w) <-> In e (plyr_stnd_rows (tables w)).
Proof.
  split; apply Permutation_in; [|symmetry]; apply fetched_perm.
Qed.

(** A fetched row that carries an id is the row of a registered
    player with that id. *)
Lemma fetched_entry (w : World) (e : StandingEntry) (p : Z) :
  In e (fetched w) -> player_id e = Some p ->
  exists name, In (p, name) (players (tables w))
               /\ e = entry_of (tables w) (p, name).
Proof.
  rewrite fetched_In, plyr_stnd_rows_eq, in_app_iff, !in_map_iff.
  intros [[[i name] [<- Hin]]|[s [<- _]]] Hid; simpl in Hid.
  - injection Hid as <-. now exists name.
  - discriminate Hid.
Qed.

Lemma fetched_registered (w : World) (pl : player) :
  In pl (players (tables w)) -> In (entry_of (tables w) pl) (fetched w).
Proof.
  intros Hin. rewrite fetched_In, plyr_stnd_rows_eq, in_app_iff.
  left. now apply in_map.
Qed.


Lemma fold_right_ext_zsum (ids : list Z) (f g : Z -> Z) :
  (forall i, f i = g i) -> zsum f ids = zsum g ids.
Proof.
  intros E. induction ids as [|i ids IH]; simpl; [reflexivity|].
  now rewrite E, IH.
Qed.

Lemma zsum_plus (f g : Z -> Z) (ids : list Z) :
  zsum (fun i => f i + g i) ids = zsum f ids + zsum g ids.
Proof. induction ids as [|i ids IH]; simpl; lia. Qed.

Lemma zsum_indicator (k : Z) (ids : list Z) :
  zsum (fun i => if Z.eq_dec k i then 1 else 0) ids
  = Z.of_nat (count_occ Z.eq_dec ids k).
Proof.
  induction ids as [|i ids IH]; simpl; [reflexivity|].
  rewrite IH. destruct (Z.eq_dec k i) as [->|Hne].
  - destruct (Z.eq_dec i i); [lia | congruence].
  - destruct (Z.eq_dec i k); [congruence | lia].
Qed.

(** Counting a list of keys id by id, over ids that are pairwise
    distinct and cover the keys, counts every key once. *)
Lemma zsum_count_occ (ids keys : list Z) :
  NoDup ids -> (forall k, In k keys -> In k ids) ->
  zsum (fun i => Z.of_nat (count_occ Z.eq_dec keys i)) ids
  = Z.of_nat (List.length keys).
Proof.
  intros Hnd. induction keys as [|k keys IH]; intros Hsub.
  - clear Hnd Hsub. induction ids as [|i ids IHi]; simpl; [reflexivity|].
    exact IHi.
  - rewrite (fold_right_ext_zsum ids
               (fun i => Z.of_nat (count_occ Z.eq_dec (k :: keys) i))
               (fun i => (if Z.eq_dec k i then 1 else 0)
                         + Z.of_nat (count_occ Z.eq_dec keys i))).
    2:{ intros i. simpl. destruct (Z.eq_dec k i); lia. }
    rewrite zsum_plus, zsum_indicator, IH by (intros; apply Hsub; now right).
    assert (Hone : count_occ Z.eq_dec ids k = 1%nat).
    { apply NoDup_count_occ'; [exact Hnd | apply Hsub; now left]. }
    rewrite Hone. simpl List.length. lia.
Qed.


Lemma countPlayers_ok (w : World) :
  no_faults (script w) ->
  fst (countPlayers w) = Return (Z.of_nat (List.length (players (tables w)))).
Proof.
  destruct w as [t o s tr]. simpl. intros H.
  next_call s H; [reflexivity|].
  next_call s H; [reflexivity|].
  next_call s H; [reflexivity|].
  next_call s H; [reflexivity|].
  next_call s H; reflexivity.
Qed.

(** Under the schema the fetched rows carry pairwise distinct ids. *)
Lemma fetched_ids_NoDup (w : World) :
  schema_ok (tables w) -> NoDup (map player_id (fetched w)).
Proof.
  intros Hok.
  apply (Permutation_NoDup (l := map player_id (plyr_stnd_rows (tables w)))).
  - apply Permutation_map. symmetry. apply fetched_perm.
  - rewrite (plyr_stnd_rows_schema _ Hok), map_map. cbn [entry_of player_id].
    destruct Hok as [Hnd _]. revert Hnd.
    induction (players (tables w)) as [|p ps IH]; simpl; intros Hnd;
      [constructor|].
    apply NoDup_cons_iff in Hnd. destruct Hnd as [Hp Hnd].
    constructor; [|now apply IH].
    rewrite in_map_iff. intros [q [E Hq]]. injection E as E.
    apply Hp. rewrite <- E. now apply in_map.
Qed.

End Runs.

(** * Pairing *)

Section Pairs.

Lemma list_two_ind {X : Type} (P : list X -> Prop) :
  P [] -> (forall a, P [a]) -> (forall a b l, P l -> P (a :: b :: l)) ->
  forall l, P l.
Proof.
  intros H0 H1 H2 l.
  enough (H : P l /\ forall a, P (a :: l)) by apply H.
  induction l as [|x l [IHl IHx]]; split; auto.
Qed.

Lemma mod2_even (n : nat) : Nat.eqb (n mod 2) 0 = Nat.even n.
Proof.
  enough (H : Nat.eqb (n mod 2) 0 = Nat.even n
              /\ Nat.eqb (S n mod 2) 0 = Nat.even (S n)) by apply H.
  induction n as [|n [IH0 IH1]]; [split; reflexivity|].
  split; [exact IH1|].
  rewrite Nat.even_succ_succ, <- IH0.
  replace (S (S n)) with (n + 1 * 2)%nat by lia.
  now rewrite Nat.Div0.mod_add.
Qed.

Lemma xrange_by_two (n : nat) :
  xrange 0 (S (S n)) 2 = 0%nat :: map (fun i => S (S i)) (xrange 0 n 2).
Proof.
  unfold xrange. rewrite !Nat.sub_0_r. cbn [Nat.sub].
  replace (S (S n) + 1)%nat with ((n + 1) + 1 * 2)%nat by lia.
  rewrite Nat.div_add by discriminate.
  rewrite Nat.add_1_r. rewrite <- cons_seq, <- seq_shift.
  cbn [map]. rewrite !map_map. reflexivity.
Qed.

(** The comprehension over a suffix [r] of the standings, read at the
    indices that follow the prefix [pre]. *)
Lemma comprehension_suffix {S : Type} (s : S) (r : list StandingEntry) :
  forall pre,
    Nat.even (List.length r) = true ->
    comprehension (pair_at (pre ++ r))
                  (map (fun i => (List.length pre + i)%nat)
                       (xrange 0 (List.length r) 2)) s
    = (Return (adjacent_pairs r), s).
Proof.
  induction r as [|a|a b r IH] using list_two_ind; intros pre Hev.
  - reflexivity.
  - discriminate Hev.
  - cbn [List.length] in *. rewrite xrange_by_two. cbn [map comprehension].
    unfold bind at 1. unfold pair_at at 1, bind, getitem.
    rewrite Nat.add_0_r.
    rewrite nth_error_app2 by lia. rewrite Nat.sub_diag. cbn [nth_error].
    rewrite nth_error_app2 by lia.
    replace (List.length pre + 1 - List.length pre)%nat with 1%nat by lia.
    cbn [nth_error].
    specialize (IH (pre ++ [a; b]) Hev).
    rewrite <- app_assoc in IH. cbn [app] in IH.
    rewrite map_map. unfold ret. cbv beta iota.
    erewrite map_ext; [rewrite IH; reflexivity|].
    intros i. rewrite length_app. cbn [List.length]. lia.
Qed.

Lemma pair_standings_even {S : Type} (standings : list StandingEntry) (s : S) :
  Nat.even (List.length standings) = true ->
  pair_standings standings s = (Return (adjacent_pairs standings), s).
Proof.
  intros Hev. unfold pair_standings. rewrite mod2_even, Hev. cbn [negb].
  pose proof (comprehension_suffix s standings [] Hev) as H.
  cbn [app List.length Nat.add] in H. rewrite map_id in H.
  unfold bind at 1.
  match goal with
  | |- (let (_, _) := ?c in _) = _ =>
      replace c with (Return (adjacent_pairs standings), s)
        by (symmetry; exact H)
  end.
  reflexivity.
Qed.

Lemma pair_standings_odd {S : Type} (standings : list StandingEntry) (s : S) :
  Nat.even (List.length standings) = false ->
  pair_standings standings s
  = (Raise (PyExc "Exception" "Need even number of players for pairing."), s).
Proof.
  intros Hodd. unfold pair_standings. now rewrite mod2_even, Hodd.
Qed.

Lemma adjacent_pairs_length (l : list StandingEntry) :
  List.length (adjacent_pairs l) = (List.length l / 2)%nat.
Proof.
  induction l as [|a|a b l IH] using list_two_ind; try reflexivity.
  cbn [adjacent_pairs List.length]. rewrite IH.
  replace (S (S (List.length l))) with (List.length l + 1 * 2)%nat by lia.
  rewrite Nat.div_add by discriminate. lia.
Qed.

Lemma adjacent_pairs_nth (l : list StandingEntry) :
  forall i, (2 * i + 1 < List.length l)%nat ->
    exists a b,
      nth_error l (2 * i) = Some a /\ nth_error l (2 * i + 1) = Some b
      /\ nth_error (adjacent_pairs l) i = Some (pair_of a b).
Proof.
  induction l as [|a|a b l IH] using list_two_ind; intros i Hi;
    cbn [List.length] in Hi; try lia.
  destruct i as [|i].
  - exists a, b. repeat split.
  - destruct (IH i) as [x [y [Hx [Hy Hp]]]]; [lia|].
    exists x, y.
    replace (2 * S i)%nat with (S (S (2 * i))) by lia.
    replace (S (S (2 * i)) + 1)%nat with (S (S (2 * i + 1))) by lia.
    cbn [nth_error adjacent_pairs]. auto.
Qed.

Lemma same_id_true (x y : option Z) : same_id x y = true <-> x = y.
Proof.
  destruct x as [i|], y as [j|]; simpl; try (split; congruence).
  rewrite Z.eqb_eq. split; congruence.
Qed.

(** A pair only lists ids of the standings it was made from. *)
Lemma in_pair_listed (l : list StandingEntry) (pid : option Z) (p : Pairing) :
  In p (adjacent_pairs l) -> in_pair pid p = true -> In pid (map player_id l).
Proof.
  induction l as [|a|a b l IH] using list_two_ind; try contradiction.
  cbn [adjacent_pairs map]. intros [<-|Hin] Hp.
  - apply orb_true_iff in Hp. rewrite !same_id_true in Hp.
    cbn in Hp. destruct Hp as [->| ->]; simpl; auto.
  - right. right. now apply IH.
Qed.

Lemma in_pair_nowhere (l : list StandingEntry) (pid : option Z) :
  ~ In pid (map player_id l) -> filter (in_pair pid) (adjacent_pairs l) = [].
Proof.
  intros Hno.
  destruct (filter (in_pair pid) (adjacent_pairs l)) as [|p ps] eqn:E;
    [reflexivity|].
  assert (Hp : In p (filter (in_pair pid) (adjacent_pairs l)))
    by (rewrite E; now left).
  apply filter_In in Hp. destruct Hp as [Hin Hp].
  exfalso. apply Hno. exact (in_pair_listed l pid p Hin Hp).
Qed.

(** With pairwise distinct ids and an even number of entries, every id
    of the standings is listed by one pair and no more. *)
Lemma in_pair_once (l : list StandingEntry) :
  Nat.even (List.length l) = true -> NoDup (map player_id l) ->
  forall e, In e l ->
    List.length (filter (in_pair (player_id e)) (adjacent_pairs l)) = 1%nat.
Proof.
  induction l as [|a|a b l IH] using list_two_ind; intros Hev Hnd e Hin;
    try contradiction; try discriminate.
  cbn [List.length] in Hev. rewrite Nat.even_succ_succ in Hev.
  cbn [map] in Hnd.
  apply NoDup_cons_iff in Hnd. destruct Hnd as [Ha Hnd].
  apply NoDup_cons_iff in Hnd. destruct Hnd as [Hb Hnd].
  cbn [adjacent_pairs filter].
  destruct (in_pair (player_id e) (pair_of a b)) eqn:Hp.
  - rewrite in_pair_nowhere; [reflexivity|].
    apply orb_true_iff in Hp. rewrite !same_id_true in Hp. cbn in Hp.
    destruct Hp as [->| ->]; [|exact Hb].
    intros Hin'. apply Ha. now right.
  - destruct Hin as [<-|[<-|Hin]].
    + unfold in_pair, pair_of, id1 in Hp. cbn in Hp.
      apply orb_false_iff in Hp. destruct Hp as [Hp _].
      assert (same_id (player_id a) (player_id a) = true)
        by now apply same_id_true.
      congruence.
    + unfold in_pair, pair_of, id2 in Hp. cbn in Hp.
      apply orb_false_iff in Hp. destruct Hp as [_ Hp].
      assert (same_id (player_id b) (player_id b) = true)
        by now apply same_id_true.
      congruence.
    + now apply IH.
Qed.

Lemma adjacent_pairs_distinct (l : list StandingEntry) :
  NoDup (map player_id l) ->
  forall p, In p (adjacent_pairs l) -> id1 p <> id2 p.
Proof.
  induction l as [|a|a b l IH] using list_two_ind; intros Hnd p Hin;
    try contradiction.
  cbn [map] in Hnd.
  apply NoDup_cons_iff in Hnd. destruct Hnd as [Ha Hnd].
  apply NoDup_cons_iff in Hnd. destruct Hnd as [_ Hnd].
  destruct Hin as [<-|Hin].
  - cbn. intros E. apply Ha. left. now symmetry.
  - now apply IH.
Qed.

(** [swissPairings] once [playerStandings] has returned. *)
Lemma swissPairings_after (w : World) (standings : list StandingEntry) :
  fst (playerStandings w) = Return standings ->
  fst (swissPairings w) =
  if Nat.even (List.length standings)
  then Return (adjacent_pairs standings)
  else Raise (PyExc "Exception" "Need even number of players for pairing.").
Proof.
  unfold swissPairings, bind. destruct (playerStandings w) as [r w'].
  cbn [fst]. intros ->.
  destruct (Nat.even (List.length standings)) eqn:E.
  - now rewrite pair_standings_even.
  - now rewrite pair_standings_odd.
Qed.

(** [swissPairings] has no handler of its own. *)
Lemma swissPairings_raise (w : World) (e : exn) :
  fst (playerStandings w) = Raise e -> fst (swissPairings w) = Raise e.
Proof.
  unfold swissPairings, bind. destruct (playerStandings w) as [r w'].
  cbn [fst]. now intros ->.
Qed.

End Pairs.

(** * The claims *)

(** C1, evaluated on the code.  Players A, B, C, D have ids 1 to 4, player
    1 beat player 2 and player 3 beat player 4.  The statement that
    [playerStandings] sends has no ORDER BY and the function does not sort
    the rows it fetches: with a store that returns the rows in join order
    the list starts with players 1 and 2, so a player with no win comes
    before player 3, who has one.  The list is not in descending order of
    wins. *)
Theorem playerStandings_unsorted :
  fst (playerStandings (store four_players [])) =
  Return [mkEntry (Some 1) (Some "A") 1 1; mkEntry (Some 2) (Some "B") 0 1;
          mkEntry (Some 3) (Some "C") 1 1; mkEntry (Some 4) (Some "D") 0 1]
  /\ wins_descending
       [mkEntry (Some 1) (Some "A") 1 1; mkEntry (Some 2) (Some "B") 0 1;
        mkEntry (Some 3) (Some "C") 1 1; mkEntry (Some 4) (Some "D") 0 1]
     = false
  /\ fst (swissPairings (store four_players [])) =
     Return [(Some 1, Some "A", Some 2, Some "B");
             (Some 3, Some "C", Some 4, Some "D")].
Proof. repeat split. Qed.

(** C2 as stated fails: with three registered players the number of
    standings entries is odd and [swissPairings] raises the built-in
    [Exception] with the message "Need even number of players for
    pairing.", not an InvalidStateError saying "cannot pair an odd number
    of players". *)
Lemma swissPairings_odd_is_plain_Exception :
  fst (playerStandings (store three_players [])) =
  Return [mkEntry (Some 1) (Some "A") 0 0; mkEntry (Some 2) (Some "B") 0 0;
          mkEntry (Some 3) (Some "C") 0 0]
  /\ fst (swissPairings (store three_players [])) =
     Raise (PyExc "Exception" "Need even number of players for pairing.")
  /\ fst (swissPairings (store three_players [])) <>
     Raise (PyExc "InvalidStateError" "cannot pair an odd number of players").
Proof. repeat split. discriminate. Qed.

(** C2, amended.  Once [playerStandings] has returned n entries,
    [swissPairings] fails if and only if n is odd, and then it raises
    [Exception] with the message "Need even number of players for
    pairing."; when n is even, zero included, it returns a list of n / 2
    pairs. *)
Theorem swissPairings_parity (w : World) (standings : list StandingEntry) :
  fst (playerStandings w) = Return standings ->
  ((exists e, fst (swissPairings w) = Raise e)
   <-> Nat.odd (List.length standings) = true)
  /\ (Nat.odd (List.length standings) = true ->
      fst (swissPairings w) =
      Raise (PyExc "Exception" "Need even number of players for pairing."))
  /\ (Nat.even (List.length standings) = true ->
      exists pairs, fst (swissPairings w) = Return pairs
                    /\ List.length pairs = (List.length standings / 2)%nat).
Proof.
  intros Hst. rewrite (swissPairings_after w standings Hst).
  unfold Nat.odd. destruct (Nat.even (List.length standings)); cbn [negb].
  - split; [|split].
    + split; [intros [e He]; discriminate He | discriminate].
    + discriminate.
    + intros _. eexists. split; [reflexivity | apply adjacent_pairs_length].
  - split; [|split].
    + split; [reflexivity | intros _; eexists; reflexivity].
    + reflexivity.
    + discriminate.
Qed.

Lemma swissPairings_parity_witness :
  ((exists e, fst (swissPairings (store four_players [])) = Raise e)
   <-> Nat.odd 4 = true)
  /\ (Nat.odd 4 = true ->
      fst (swissPairings (store four_players [])) =
      Raise (PyExc "Exception" "Need even number of players for pairing."))
  /\ (Nat.even 4 = true ->
      exists pairs, fst (swissPairings (store four_players [])) = Return pairs
                    /\ List.length pairs = (4 / 2)%nat).
Proof.
  exact (swissPairings_parity (store four_players [])
           [mkEntry (Some 1) (Some "A") 1 1; mkEntry (Some 2) (Some "B") 0 1;
            mkEntry (Some 3) (Some "C") 1 1; mkEntry (Some 4) (Some "D") 0 1]
           eq_refl).
Defined.

(** C3.  For tables that satisfy the schema, once [playerStandings] has
    returned an even number n of entries, [swissPairings] returns n / 2
    pairs; pair i is made of entries 2i and 2i+1 of the standings, in
    that order, each with its id and name; and every player id of the
    standings is listed by exactly one pair. *)
Theorem swissPairings_adjacent (w : World) (standings : list StandingEntry) :
  schema_ok (tables w) ->
  fst (playerStandings w) = Return standings ->
  Nat.even (List.length standings) = true ->
  exists pairs,
    fst (swissPairings w) = Return pairs
    /\ List.length pairs = (List.length standings / 2)%nat
    /\ (forall i, (i < List.length standings / 2)%nat ->
          exists a b,
            nth_error standings (2 * i) = Some a
            /\ nth_error standings (2 * i + 1) = Some b
            /\ nth_error pairs i
               = Some (player_id a, player_name a, player_id b, player_name b))
    /\ (forall e, In e standings ->
          List.length (filter (in_pair (player_id e)) pairs) = 1%nat).
Proof.
  intros Hok Hst Hev. exists (adjacent_pairs standings).
  rewrite (swissPairings_after w standings Hst), Hev.
  split; [reflexivity|]. split; [apply adjacent_pairs_length|]. split.
  - intros i Hi. apply adjacent_pairs_nth.
    pose proof (Nat.Div0.mul_div_le (List.length standings) 2). lia.
  - apply in_pair_once; [exact Hev|].
    rewrite (playerStandings_returns w standings Hst).
    now apply fetched_ids_NoDup.
Qed.

Lemma swissPairings_adjacent_witness :
  exists pairs,
    fst (swissPairings (store four_players [])) = Return pairs
    /\ List.length pairs = (4 / 2)%nat
    /\ (forall i, (i < 4 / 2)%nat ->
          exists a b,
            nth_error (fetched (store four_players [])) (2 * i) = Some a
            /\ nth_error (fetched (store four_players [])) (2 * i + 1) = Some b
            /\ nth_error pairs i
               = Some (player_id a, player_name a, player_id b, player_name b))
    /\ (forall e, In e (fetched (store four_players [])) ->
          List.length (filter (in_pair (player_id e)) pairs) = 1%nat).
Proof.
  apply (swissPairings_adjacent (store four_players [])
           (fetched (store four_players []))).
  - split.
    + simpl. repeat constructor; simpl; intuition discriminate.
    + intros m [<-|[<-|[]]]; simpl; auto 10.
  - reflexivity.
  - reflexivity.
Defined.

(** C4.  With a store that does not fail, [playerStandings] returns, for
    a registered player who takes part in no recorded match, an entry
    with that player's id and name, no win and no match played; and every
    entry that carries that id has a name, no win and no match played. *)
Theorem unplayed_player_listed (w : World) (id : Z) (name : string) :
  In (id, name) (players (tables w)) ->
  unplayed (tables w) id ->
  no_faults (script w) ->
  exists standings,
    fst (playerStandings w) = Return standings
    /\ In (mkEntry (Some id) (Some name) 0 0) standings
    /\ (forall e, In e standings -> player_id e = Some id ->
          player_name e <> None /\ matches_won e = 0 /\ total_matches e = 0).
Proof.
  intros Hreg Hun Hok. exists (fetched w).
  assert (Hw : won (tables w) id = 0).
  { unfold won. apply (f_equal Z.of_nat (y := 0%nat)), count_occ_not_In.
    rewrite in_map_iff. intros [m [E Hm]].
    destruct (Hun m Hm) as [H1 H2]. congruence. }
  assert (Hl : lost (tables w) id = 0).
  { unfold lost. apply (f_equal Z.of_nat (y := 0%nat)), count_occ_not_In.
    rewrite in_map_iff. intros [m [E Hm]].
    destruct (Hun m Hm) as [H1 H2]. congruence. }
  split; [now apply playerStandings_ok|]. split.
  - pose proof (fetched_registered w (id, name) Hreg) as Hin.
    unfold entry_of in Hin. cbn [fst snd] in Hin.
    now rewrite Hw, Hl in Hin.
  - intros e Hin Hid.
    destruct (fetched_entry w e id Hin Hid) as [nm [_ ->]].
    unfold entry_of. cbn. rewrite Hw, Hl. repeat split. discriminate.
Qed.

Lemma unplayed_player_listed_witness :
  exists standings,
    fst (playerStandings (store (mkTables [(1, "A"); (2, "B"); (3, "C")] [(1, 2)]) []))
    = Return standings
    /\ In (mkEntry (Some 3) (Some "C") 0 0) standings
    /\ (forall e, In e standings -> player_id e = Some 3 ->
          player_name e <> None /\ matches_won e = 0 /\ total_matches e = 0).
Proof.
  apply (unplayed_player_listed
           (store (mkTables [(1, "A"); (2, "B"); (3, "C")] [(1, 2)]) [])
           3 "C").
  - simpl. auto.
  - intros m [<-|[]]. simpl. split; discriminate.
  - constructor.
Defined.



(** C6.  For tables that satisfy the schema and a store that does not
    fail, the list that [playerStandings] returns is as long as the
    number that [countPlayers] returns for the same tables. *)
Theorem standings_length_is_player_count (w w' : World) :
  schema_ok (tables w) ->
  tables w' = tables w ->
  no_faults (script w) ->
  no_faults (script w') ->
  exists standings n,
    fst (playerStandings w) = Return standings
    /\ fst (countPlayers w') = Return n
    /\ Z.of_nat (List.length standings) = n.
Proof.
  intros Hschema Htab Hok Hok'.
  exists (fetched w), (Z.of_nat (List.length (players (tables w')))).
  split; [now apply playerStandings_ok|].
  split; [now apply countPlayers_ok|].
  rewrite Htab. f_equal.
  rewrite (Permutation_length (fetched_perm w)).
  rewrite (plyr_stnd_rows_schema _ Hschema). apply length_map.
Qed.

Lemma standings_length_is_player_count_witness :
  exists standings n,
    fst (playerStandings (store four_players [])) = Return standings
    /\ fst (countPlayers (snd (playerStandings (store four_players []))))
       = Return n
    /\ Z.of_nat (List.length standings) = n.
Proof.
  apply (standings_length_is_player_count
           (store four_players [])
           (snd (playerStandings (store four_players [])))).
  - split.
    + simpl. repeat constructor; simpl; intuition discriminate.
    + intros m [<-|[<-|[]]]; simpl; auto 10.
  - reflexivity.
  - constructor.
  - constructor.
Defined.



(** C8 as stated fails: when [cur.execute] raises a DatabaseError inside
    [playerStandings], the caller does not receive that error; the
    [except] clause replaces it by [SystemExit(1)], in [playerStandings]
    and so in [swissPairings]. *)
Lemma DatabaseError_not_propagated :
  script (store four_players failing_execute)
  = [None; None; Some (DatabaseError "connection lost")]
  /\ fst (playerStandings (store four_players failing_execute))
     = Raise (SystemExit 1)
  /\ fst (playerStandings (store four_players failing_execute))
     <> Raise (DatabaseError "connection lost")
  /\ fst (swissPairings (store four_players failing_execute))
     <> Raise (DatabaseError "connection lost").
Proof. repeat split; discriminate. Qed.

(** C8, amended.  When the store raises a DatabaseError in the [try]
    block of a core operation, that is in connect, cursor, execute or
    fetchall, and the clean-up calls succeed, the operation does not pass
    the error on: [playerStandings], [swissPairings] and [countPlayers]
    print "DB error...rolled back " followed by the error's text and
    raise [SystemExit(1)] in its place.  When [connect] had returned,
    that is when execute or fetchall failed, the operation rolls back
    before it prints and closes the connection afterwards; when
    [psycopg2.connect] or [db.cursor] failed it neither rolls back nor
    closes.  Nothing is retried: the driver calls made are those up to
    the failed one, each once, then the clean-up.  The failure is not
    suppressed: the operation does not return. *)
Theorem DatabaseError_becomes_SystemExit
        (w : World) (k : nat) (msg : string) (rest : list (option exn)) :
  script w = repeat None k ++ Some (DatabaseError msg) :: rest ->
  (k < 4)%nat ->
  no_faults rest ->
  let line := EPrint ("DB error...rolled back " ++ msg)%string in
  let clean_up :=
    if (2 <=? k)%nat then [EClose; line; ERollback] else [line] in
  let calls statement :=
    rev (firstn (S k) [EConnect "dbname=tournament"; ECursor;
                       EExecute statement; EFetchall]) in
  fst (playerStandings w) = Raise (SystemExit 1)
  /\ fst (swissPairings w) = Raise (SystemExit 1)
  /\ fst (countPlayers w) = Raise (SystemExit 1)
  /\ trace (snd (playerStandings w))
     = clean_up ++ calls "plyr_stnd_q" ++ trace w
  /\ trace (snd (swissPairings w))
     = clean_up ++ calls "plyr_stnd_q" ++ trace w
  /\ trace (snd (countPlayers w))
     = clean_up ++ calls "count_q" ++ trace w
  /\ NoDup (clean_up ++ calls "plyr_stnd_q")
  /\ NoDup (clean_up ++ calls "count_q").
Proof.
  intros Hs Hk Hrest.
  destruct w as [t o s tr]. cbn [script trace] in *. subst s.
  destruct rest as [|r1 rest];
    [|apply no_faults_cons in Hrest; destruct Hrest as [-> Hrest]].
  2: destruct rest as [|r2 rest];
    [|apply no_faults_cons in Hrest; destruct Hrest as [-> Hrest]].
  all: destruct k as [|[|[|[|k]]]]; try lia.
  all: cbv zeta.
  all: repeat (split; [reflexivity|]).
  all: split; cbn; repeat constructor; simpl; intuition discriminate.
Qed.

Lemma DatabaseError_becomes_SystemExit_witness :
  fst (playerStandings (store four_players failing_execute))
  = Raise (SystemExit 1)
  /\ fst (swissPairings (store four_players failing_execute))
     = Raise (SystemExit 1)
  /\ fst (countPlayers (store four_players failing_execute))
     = Raise (SystemExit 1)
  /\ trace (snd (playerStandings (store four_players failing_execute)))
     = [EClose; EPrint "DB error...rolled back connection lost"; ERollback;
        EExecute "plyr_stnd_q"; ECursor; EConnect "dbname=tournament"]
  /\ trace (snd (swissPairings (store four_players failing_execute)))
     = [EClose; EPrint "DB error...rolled back connection lost"; ERollback;
        EExecute "plyr_stnd_q"; ECursor; EConnect "dbname=tournament"]
  /\ trace (snd (countPlayers (store four_players failing_execute)))
     = [EClose; EPrint "DB error...rolled back connection lost"; ERollback;
        EExecute "count_q"; ECursor; EConnect "dbname=tournament"]
  /\ NoDup [EClose; EPrint "DB error...rolled back connection lost";
            ERollback; EExecute "plyr_stnd_q"; ECursor;
            EConnect "dbname=tournament"]
  /\ NoDup [EClose; EPrint "DB error...rolled back connection lost";
            ERollback; EExecute "count_q"; ECursor;
            EConnect "dbname=tournament"].
Proof.
  apply (DatabaseError_becomes_SystemExit
           (store four_players failing_execute) 2 "connection lost" []).
  - reflexivity.
  - lia.
  - constructor.
Defined.

(** C9.  Once [playerStandings] has returned an even number of entries
    whose player ids are pairwise distinct, [swissPairings] returns, and
    in every pair it returns the two ids differ. *)
Theorem swissPairings_no_self_pair (w : World) (standings : list StandingEntry) :
  fst (playerStandings w) = Return standings ->
  Nat.even (List.length standings) = true ->
  NoDup (map player_id standings) ->
  exists pairs,
    fst (swissPairings w) = Return pairs
    /\ forall p, In p pairs -> id1 p <> id2 p.
Proof.
  intros Hst Hev Hnd. exists (adjacent_pairs standings).
  rewrite (swissPairings_after w standings Hst), Hev.
  split; [reflexivity|]. now apply adjacent_pairs_distinct.
Qed.

Lemma swissPairings_no_self_pair_witness :
  exists pairs,
    fst (swissPairings (store four_players [])) = Return pairs
    /\ forall p, In p pairs -> id1 p <> id2 p.
Proof.
  apply (swissPairings_no_self_pair (store four_players [])
           (fetched (store four_players []))).
  - reflexivity.
  - reflexivity.
  - simpl. repeat constructor; simpl; intuition discriminate.
Defined.

(** C10.  Two runs of [swissPairings] in which [playerStandings] comes
    out the same, whatever else differs between the two stores, come out
    the same. *)
Theorem swissPairings_deterministic (w1 w2 : World) :
  fst (playerStandings w1) = fst (playerStandings w2) ->
  fst (swissPairings w1) = fst (swissPairings w2).
Proof.
  intros Hsame.
  destruct (fst (playerStandings w1)) as [standings|e] eqn:H1; symmetry in Hsame.
  - now rewrite (swissPairings_after w1 standings H1),
                (swissPairings_after w2 standings Hsame).
  - now rewrite (swissPairings_raise w1 e H1), (swissPairings_raise w2 e Hsame).
Qed.

Lemma swissPairings_deterministic_witness :
  fst (swissPairings (store four_players []))
  = fst (swissPairings
           (mkWorld four_players join_order [None; None] [EPrint "earlier"])).
Proof.
  apply (swissPairings_deterministic
           (store four_players [])
           (mkWorld four_players join_order [None; None] [EPrint "earlier"])).
  reflexivity.
Defined.

(** * Further properties *)

(** Case analysis on what the script holds for each driver call. *)
Ltac all_scripts :=
  repeat match goal with
         | |- context [match ?s with [] => _ | _ :: _ => _ end] =>
             is_var s; destruct s as [|[[?m|?c ?m|?n]|] s]; cbn
         end.

Ltac unfold_write :=
  unfold db_transact, registerPlayer, reportMatch, call_write,
    try_except_finally, connect, on_DatabaseError_write, close_db_write,
    db_rollback_write, db_close_write, cur_execute_write, db_commit,
    psycopg2_connect, db_cursor, db_close, db_rollback, driver_call,
    step_world, view, discard_work, print, read_db, assign_db, in_frame,
    bind.

Ltac unfold_read :=
  unfold playerStandings, countPlayers, call, try_except_finally, connect,
    on_DatabaseError, close_db, cur_execute, cur_fetchall, psycopg2_connect,
    db_cursor, db_close, db_rollback, driver_call, step_world, print,
    read_db, assign_db, getitem, bind.

(** ** The functions that write *)

Section Writes.

(** [reportMatch] and [registerPlayer] carry the text of [db_transact],
    without its return value. *)
Lemma reportMatch_as_transact (winner loser : Z) (w : World) :
  reportMatch winner loser w =
  (forget (fst (db_transact (match_result_q winner loser) DB_NAME w)),
   snd (db_transact (match_result_q winner loser) DB_NAME w)).
Proof.
  destruct w as [t o s tr]. unfold_write. cbn. all_scripts; reflexivity.
Qed.

Lemma registerPlayer_as_transact (clean : string -> string) (assigned : Z)
      (name : string) (w : World) :
  registerPlayer clean assigned name w =
  (forget (fst (db_transact (add_plyr_q assigned (clean name)) DB_NAME w)),
   snd (db_transact (add_plyr_q assigned (clean name)) DB_NAME w)).
Proof.
  destruct w as [t o s tr]. unfold_write. cbn. all_scripts; reflexivity.
Qed.

(** What [db_transact] leaves behind, whatever the store does. *)
Lemma db_transact_tables (st : statement) (dbname : string) (w : World) :
  tables (snd (db_transact st dbname w)) =
  if calls_succeed 4 (script w)
  then apply_statement st (tables w) else tables w.
Proof.
  destruct w as [t o s tr]. unfold calls_succeed. unfold_write. cbn.
  all_scripts; reflexivity.
Qed.

Lemma db_transact_returns (st : statement) (dbname : string) (w : World) :
  forget (fst (db_transact st dbname w)) = Return tt
  <-> calls_succeed 5 (script w) = true.
Proof.
  destruct w as [t o s tr]. unfold calls_succeed. unfold_write. cbn.
  all_scripts; split; intros H; try reflexivity; try discriminate H.
Qed.

Lemma no_faults_skipn (n : nat) (s : list (option exn)) :
  no_faults s -> no_faults (skipn n s).
Proof.
  revert s. induction n as [|n IH]; intros s H; [exact H|].
  destruct s as [|f s]; [exact H|]. apply IH. now inversion H.
Qed.

(** With a store that does not fail, [db_transact] applies its statement. *)
Lemma db_transact_ok (st : statement) (dbname : string) (w : World) :
  no_faults (script w) ->
  db_transact st dbname w =
  (Return (Some tt),
   mkWorld (apply_statement st (tables w)) (order w) (skipn 5 (script w))
           (EClose :: EExecute "COMMIT" :: EExecute (statement_text st)
                   :: ECursor :: EConnect ("dbname=" ++ dbname)%string
                   :: trace w)).
Proof.
  destruct w as [t o s tr]. cbn [script tables order trace]. intros H.
  do 5 (destruct s as [|[e|] s];
        [reflexivity
        | apply no_faults_cons in H; destruct H as [H _]; discriminate H
        | apply no_faults_cons in H; destruct H as [_ H] ]).
  reflexivity.
Qed.

Lemma deleteMatches_as_transact (w : World) :
  deleteMatches w =
  (forget (fst (db_transact del_match_q DB_NAME w)),
   snd (db_transact del_match_q DB_NAME w)).
Proof.
  unfold deleteMatches, bind.
  destruct (db_transact del_match_q DB_NAME w) as [[d|e] w']; reflexivity.
Qed.

Lemma deletePlayers_as_transact (w : World) :
  deletePlayers w =
  (forget (fst (db_transact del_plyr_q DB_NAME w)),
   snd (db_transact del_plyr_q DB_NAME w)).
Proof.
  unfold deletePlayers, bind.
  destruct (db_transact del_plyr_q DB_NAME w) as [[d|e] w']; reflexivity.
Qed.

(** A DatabaseError in the [try] block of [db_transact], with clean-up
    calls that succeed, ends in [SystemExit(1)]. *)
Lemma db_transact_DatabaseError (st : statement) (dbname : string)
      (w : World) (k : nat) (msg : string) (rest : list (option exn)) :
  script w = repeat None k ++ Some (DatabaseError msg) :: rest ->
  (k < 4)%nat ->
  no_faults rest ->
  fst (db_transact st dbname w) = Raise (SystemExit 1)
  /\ In (EPrint ("DB error...rolled back " ++ msg)%string)
        (trace (snd (db_transact st dbname w))).
Proof.
  intros Hs Hk Hrest. destruct w as [t o s tr]. cbn [script] in Hs. subst s.
  destruct rest as [|r1 rest];
    [|apply no_faults_cons in Hrest; destruct Hrest as [-> Hrest]].
  2: destruct rest as [|r2 rest];
    [|apply no_faults_cons in Hrest; destruct Hrest as [-> Hrest]].
  all: destruct k as [|[|[|[|k]]]]; try lia.
  all: split; [reflexivity | cbn; auto 10].
Qed.

Lemma fetched_after (w : World) (t' : Tables) (s' : list (option exn))
      (tr' : list event) :
  fetched (mkWorld t' (order w) s' tr') = reorder (order w) (plyr_stnd_rows t').
Proof. reflexivity. Qed.

Lemma won_after_report (t : Tables) (winner loser p : Z) :
  won (apply_statement (match_result_q winner loser) t) p
  = won t p + (if Z.eqb p winner then 1 else 0).
Proof.
  unfold won. cbn [apply_statement matches].
  rewrite map_app, count_occ_app. cbn [map fst count_occ].
  rewrite Nat2Z.inj_add. f_equal.
  destruct (Z.eq_dec winner p) as [->|Hne].
  - now rewrite Z.eqb_refl.
  - apply not_eq_sym, Z.eqb_neq in Hne. now rewrite Hne.
Qed.

Lemma lost_after_report (t : Tables) (winner loser p : Z) :
  lost (apply_statement (match_result_q winner loser) t) p
  = lost t p + (if Z.eqb p loser then 1 else 0).
Proof.
  unfold lost. cbn [apply_statement matches].
  rewrite map_app, count_occ_app. cbn [map snd count_occ].
  rewrite Nat2Z.inj_add. f_equal.
  destruct (Z.eq_dec loser p) as [->|Hne].
  - now rewrite Z.eqb_refl.
  - apply not_eq_sym, Z.eqb_neq in Hne. now rewrite Hne.
Qed.

(** X1.  With a store that does not fail, [reportMatch] returns and
    leaves the players as they are; in the standings read afterwards the
    winner has one more win and one more match played, the loser one more
    match played, and a player who is both has one more win and two more
    matches played; every other player's entry keeps its numbers. *)
Theorem reportMatch_updates_standings (w : World) (winner loser : Z) :
  no_faults (script w) ->
  exists w' before after,
    reportMatch winner loser w = (Return tt, w')
    /\ players (tables w') = players (tables w)
    /\ fst (playerStandings w) = Return before
    /\ fst (playerStandings w') = Return after
    /\ forall e e' p,
         In e before -> In e' after ->
         player_id e = Some p -> player_id e' = Some p ->
         matches_won e'
         = matches_won e + (if Z.eqb p winner then 1 else 0)
         /\ total_matches e'
            = total_matches e + (if Z.eqb p winner then 1 else 0)
              + (if Z.eqb p loser then 1 else 0).
Proof.
  intros Hok.
  rewrite reportMatch_as_transact, (db_transact_ok _ _ _ Hok).
  cbn [fst snd forget].
  eexists. exists (fetched w). eexists.
  split; [reflexivity|]. split; [reflexivity|].
  split; [now apply playerStandings_ok|].
  split; [apply playerStandings_ok; cbn [script]; now apply no_faults_skipn|].
  intros e e' p Hin Hin' Hid Hid'.
  destruct (fetched_entry _ e p Hin Hid) as [nm [_ ->]].
  destruct (fetched_entry _ e' p Hin' Hid') as [nm' [_ ->]].
  cbn [tables entry_of matches_won total_matches fst].
  rewrite won_after_report, lost_after_report. split; lia.
Qed.

Lemma reportMatch_updates_standings_witness :
  exists w' before after,
    reportMatch 1 3 (store four_players []) = (Return tt, w')
    /\ players (tables w') = players four_players
    /\ fst (playerStandings (store four_players [])) = Return before
    /\ fst (playerStandings w') = Return after
    /\ forall e e' p,
         In e before -> In e' after ->
         player_id e = Some p -> player_id e' = Some p ->
         matches_won e' = matches_won e + (if Z.eqb p 1 then 1 else 0)
         /\ total_matches e'
            = total_matches e + (if Z.eqb p 1 then 1 else 0)
              + (if Z.eqb p 3 then 1 else 0).
Proof.
  apply (reportMatch_updates_standings (store four_players []) 1 3).
  constructor.
Defined.

(** An id that is not registered takes part in no match, under the
    schema. *)
Lemma fresh_id_unplayed (t : Tables) (k : Z) :
  schema_ok t -> ~ In k (map fst (players t)) -> won t k = 0 /\ lost t k = 0.
Proof.
  intros [_ Hfk] Hfresh. unfold won, lost.
  split; apply (f_equal Z.of_nat (y := 0%nat)), count_occ_not_In;
    rewrite in_map_iff; intros [m [<- Hm]]; apply Hfresh; now apply Hfk.
Qed.

(** X2.  For tables that satisfy the schema, a store that does not fail
    and an assigned id that is not in use, [registerPlayer] returns;
    afterwards [countPlayers] returns one more than before and
    [playerStandings] lists the new player under the assigned id, with
    the name as [bleach.clean] left it, no win and no match played. *)
Theorem registerPlayer_adds_player
        (clean : string -> string) (assigned : Z) (name : string) (w : World) :
  schema_ok (tables w) ->
  ~ In assigned (map fst (players (tables w))) ->
  no_faults (script w) ->
  exists w' n standings,
    registerPlayer clean assigned name w = (Return tt, w')
    /\ fst (countPlayers w) = Return n
    /\ fst (countPlayers w') = Return (n + 1)
    /\ fst (playerStandings w') = Return standings
    /\ In (mkEntry (Some assigned) (Some (clean name)) 0 0) standings.
Proof.
  intros Hschema Hfresh Hok.
  rewrite registerPlayer_as_transact, (db_transact_ok _ _ _ Hok).
  cbn [fst snd forget].
  eexists. exists (Z.of_nat (List.length (players (tables w)))). eexists.
  split; [reflexivity|].
  split; [now apply countPlayers_ok|].
  split.
  { rewrite countPlayers_ok by (cbn [script]; now apply no_faults_skipn).
    cbn [tables apply_statement players]. rewrite length_app. cbn [List.length].
    f_equal. lia. }
  split; [apply playerStandings_ok; cbn [script]; now apply no_faults_skipn|].
  match goal with
  | |- In _ (fetched ?w1) =>
      pose proof (fetched_registered w1 (assigned, clean name)) as Hin
  end.
  cbn [tables apply_statement players] in Hin.
  assert (Hnew : In (assigned, clean name)
                    (players (tables w) ++ [(assigned, clean name)]))
    by (apply in_or_app; right; now left).
  specialize (Hin Hnew).
  unfold entry_of in Hin. cbn [fst snd] in Hin.
  destruct (fresh_id_unplayed _ _ Hschema Hfresh) as [Hw Hl].
  unfold won, lost in *. cbn [matches] in Hin.
  now rewrite Hw, Hl in Hin.
Qed.

Lemma registerPlayer_adds_player_witness :
  exists w' n standings,
    registerPlayer (fun s => s) 5 "E" (store four_players []) = (Return tt, w')
    /\ fst (countPlayers (store four_players [])) = Return n
    /\ fst (countPlayers w') = Return (n + 1)
    /\ fst (playerStandings w') = Return standings
    /\ In (mkEntry (Some 5) (Some "E") 0 0) standings.
Proof.
  apply (registerPlayer_adds_player (fun s => s) 5 "E" (store four_players [])).
  - split.
    + simpl. repeat constructor; simpl; intuition discriminate.
    + intros m [<-|[<-|[]]]; simpl; auto 10.
  - simpl. intuition discriminate.
  - constructor.
Defined.

Lemma standings_without_matches (ps : list player) :
  plyr_stnd_rows (mkTables ps []) = map (entry_of (mkTables ps [])) ps.
Proof.
  rewrite plyr_stnd_rows_eq. cbn [players]. unfold strays. cbn.
  apply app_nil_r.
Qed.

(** X3.  With a store that does not fail, [deleteMatches] returns and
    keeps the players; [playerStandings] then returns one entry for each
    of them, every entry with an id, no win and no match played. *)
Theorem deleteMatches_resets_records (w : World) :
  no_faults (script w) ->
  exists w' standings,
    deleteMatches w = (Return tt, w')
    /\ players (tables w') = players (tables w)
    /\ matches (tables w') = []
    /\ fst (playerStandings w') = Return standings
    /\ List.length standings = List.length (players (tables w))
    /\ forall e, In e standings ->
         player_id e <> None /\ matches_won e = 0 /\ total_matches e = 0.
Proof.
  intros Hok.
  rewrite deleteMatches_as_transact, (db_transact_ok _ _ _ Hok).
  cbn [fst snd forget]. eexists. eexists.
  split; [reflexivity|]. split; [reflexivity|]. split; [reflexivity|].
  split; [apply playerStandings_ok; cbn [script]; now apply no_faults_skipn|].
  split.
  - rewrite (Permutation_length (fetched_perm _)).
    cbn [tables apply_statement]. rewrite standings_without_matches.
    apply length_map.
  - intros e Hin. apply fetched_In in Hin.
    cbn [tables apply_statement] in Hin.
    rewrite standings_without_matches in Hin.
    apply in_map_iff in Hin. destruct Hin as [p [<- _]].
    cbn. repeat split. discriminate.
Qed.

Lemma deleteMatches_resets_records_witness :
  exists w' standings,
    deleteMatches (store four_players []) = (Return tt, w')
    /\ players (tables w') = players four_players
    /\ matches (tables w') = []
    /\ fst (playerStandings w') = Return standings
    /\ List.length standings = List.length (players four_players)
    /\ forall e, In e standings ->
         player_id e <> None /\ matches_won e = 0 /\ total_matches e = 0.
Proof.
  apply (deleteMatches_resets_records (store four_players [])).
  constructor.
Defined.

(** X4.  With a store that does not fail, [deleteMatches] followed by
    [deletePlayers] leaves an empty tournament: [countPlayers] returns 0,
    [playerStandings] returns the empty list and [swissPairings] returns
    the empty list, without an error. *)
Theorem cleared_tournament_is_empty (w : World) :
  no_faults (script w) ->
  exists w1 w2,
    deleteMatches w = (Return tt, w1)
    /\ deletePlayers w1 = (Return tt, w2)
    /\ fst (countPlayers w2) = Return 0
    /\ fst (playerStandings w2) = Return []
    /\ fst (swissPairings w2) = Return [].
Proof.
  intros Hok.
  rewrite deleteMatches_as_transact, (db_transact_ok _ _ _ Hok).
  cbn [fst snd forget]. eexists. eexists.
  split; [reflexivity|].
  assert (Hok1 : no_faults (skipn 5 (script w))) by now apply no_faults_skipn.
  rewrite deletePlayers_as_transact, db_transact_ok by exact Hok1.
  cbn [fst snd forget tables order script trace apply_statement players matches].
  split; [reflexivity|].
  assert (Hok2 : no_faults (skipn 5 (skipn 5 (script w))))
    by now apply no_faults_skipn.
  match goal with
  | |- fst (countPlayers ?w2) = _ /\ _ =>
      assert (Hst : fst (playerStandings w2) = Return [])
  end.
  { rewrite playerStandings_ok by exact Hok2. f_equal.
    apply Permutation_nil. symmetry. apply fetched_perm. }
  split; [now rewrite countPlayers_ok by exact Hok2|].
  split; [exact Hst|].
  now rewrite (swissPairings_after _ _ Hst).
Qed.

Lemma cleared_tournament_is_empty_witness :
  exists w1 w2,
    deleteMatches (store four_players []) = (Return tt, w1)
    /\ deletePlayers w1 = (Return tt, w2)
    /\ fst (countPlayers w2) = Return 0
    /\ fst (playerStandings w2) = Return []
    /\ fst (swissPairings w2) = Return [].
Proof.
  apply (cleared_tournament_is_empty (store four_players [])).
  constructor.
Defined.

Lemma forget_Return_tt (r : outcome (option unit)) :
  forget r = Return tt <-> exists d, r = Return d.
Proof.
  destruct r as [d|e]; simpl; split; intros H;
    try reflexivity; try discriminate H.
  - now exists d.
  - destruct H as [d H]. discriminate H.
Qed.

(** X5.  Whatever the store does, each of [reportMatch], [registerPlayer],
    [deleteMatches] and [deletePlayers] changes the tables exactly when
    its connect, cursor, execute and commit calls all succeed, and then
    by its one statement alone; and it returns exactly when its close
    call succeeds as well. *)
Theorem write_is_all_or_nothing (w : World) :
  (forall winner loser,
      tables (snd (reportMatch winner loser w))
      = (if calls_succeed 4 (script w)
         then mkTables (players (tables w))
                       (matches (tables w) ++ [(winner, loser)])
         else tables w)
      /\ (fst (reportMatch winner loser w) = Return tt
          <-> calls_succeed 5 (script w) = true))
  /\ (forall clean assigned name,
         tables (snd (registerPlayer clean assigned name w))
         = (if calls_succeed 4 (script w)
            then mkTables (players (tables w) ++ [(assigned, clean name)])
                          (matches (tables w))
            else tables w)
         /\ (fst (registerPlayer clean assigned name w) = Return tt
             <-> calls_succeed 5 (script w) = true))
  /\ (tables (snd (deleteMatches w))
      = (if calls_succeed 4 (script w)
         then mkTables (players (tables w)) [] else tables w)
      /\ (fst (deleteMatches w) = Return tt
          <-> calls_succeed 5 (script w) = true))
  /\ (tables (snd (deletePlayers w))
      = (if calls_succeed 4 (script w)
         then mkTables [] (matches (tables w)) else tables w)
      /\ (fst (deletePlayers w) = Return tt
          <-> calls_succeed 5 (script w) = true)).
Proof.
  repeat split.
  all: try (intros H;
            first [ rewrite reportMatch_as_transact in H
                  | rewrite registerPlayer_as_transact in H
                  | rewrite deleteMatches_as_transact in H
                  | rewrite deletePlayers_as_transact in H ];
            cbn [fst] in H; now apply db_transact_returns in H).
  all: first [ rewrite reportMatch_as_transact
             | rewrite registerPlayer_as_transact
             | rewrite deleteMatches_as_transact
             | rewrite deletePlayers_as_transact ];
    cbn [fst snd].
  all: try (intros H; now apply db_transact_returns).
  all: now rewrite db_transact_tables.
Qed.

(** X6.  When the store raises a DatabaseError in the connect, cursor,
    execute or commit call of a function that writes, and the clean-up
    calls succeed, the function raises [SystemExit(1)] and the tables are
    as they were: nothing of the statement is recorded. *)
Theorem failed_write_records_nothing
        (w : World) (k : nat) (msg : string) (rest : list (option exn)) :
  script w = repeat None k ++ Some (DatabaseError msg) :: rest ->
  (k < 4)%nat ->
  no_faults rest ->
  (forall winner loser,
      fst (reportMatch winner loser w) = Raise (SystemExit 1)
      /\ tables (snd (reportMatch winner loser w)) = tables w)
  /\ (forall clean assigned name,
         fst (registerPlayer clean assigned name w) = Raise (SystemExit 1)
         /\ tables (snd (registerPlayer clean assigned name w)) = tables w)
  /\ (fst (deleteMatches w) = Raise (SystemExit 1)
      /\ tables (snd (deleteMatches w)) = tables w)
  /\ (fst (deletePlayers w) = Raise (SystemExit 1)
      /\ tables (snd (deletePlayers w)) = tables w).
Proof.
  intros Hs Hk Hrest.
  assert (Hfail : calls_succeed 4 (script w) = false).
  { rewrite Hs. destruct k as [|[|[|[|k]]]]; try lia; reflexivity. }
  assert (Hall : forall st,
             forget (fst (db_transact st DB_NAME w)) = Raise (SystemExit 1)
             /\ tables (snd (db_transact st DB_NAME w)) = tables w).
  { intros st. rewrite db_transact_tables, Hfail.
    destruct (db_transact_DatabaseError st DB_NAME w k msg rest Hs Hk Hrest)
      as [-> _].
    split; reflexivity. }
  repeat split.
  all: first [ rewrite reportMatch_as_transact
             | rewrite registerPlayer_as_transact
             | rewrite deleteMatches_as_transact
             | rewrite deletePlayers_as_transact ];
    cbn [fst snd]; apply Hall.
Qed.

Lemma failed_write_records_nothing_witness :
  (forall winner loser,
      fst (reportMatch winner loser (store four_players failing_execute))
      = Raise (SystemExit 1)
      /\ tables (snd (reportMatch winner loser
                                  (store four_players failing_execute)))
         = four_players)
  /\ (forall clean assigned name,
         fst (registerPlayer clean assigned name
                             (store four_players failing_execute))
         = Raise (SystemExit 1)
         /\ tables (snd (registerPlayer clean assigned name
                                        (store four_players failing_execute)))
            = four_players)
  /\ (fst (deleteMatches (store four_players failing_execute))
      = Raise (SystemExit 1)
      /\ tables (snd (deleteMatches (store four_players failing_execute)))
         = four_players)
  /\ (fst (deletePlayers (store four_players failing_execute))
      = Raise (SystemExit 1)
      /\ tables (snd (deletePlayers (store four_players failing_execute)))
         = four_players).
Proof.
  apply (failed_write_records_nothing
           (store four_players failing_execute) 2 "connection lost" []).
  - reflexivity.
  - lia.
  - constructor.
Defined.

(** X7.  Whatever the store does, the schema's constraints survive
    [reportMatch] between two registered players, [registerPlayer] with an
    assigned id that is not in use, and [deleteMatches]. *)
Theorem writes_keep_schema (w : World) :
  schema_ok (tables w) ->
  (forall winner loser,
      In winner (map fst (players (tables w))) ->
      In loser (map fst (players (tables w))) ->
      schema_ok (tables (snd (reportMatch winner loser w))))
  /\ (forall clean assigned name,
         ~ In assigned (map fst (players (tables w))) ->
         schema_ok (tables (snd (registerPlayer clean assigned name w))))
  /\ schema_ok (tables (snd (deleteMatches w))).
Proof.
  intros Hschema. pose proof Hschema as [Hnd Hfk].
  assert (Hafter : forall st,
             schema_ok (apply_statement st (tables w)) ->
             schema_ok (tables (snd (db_transact st DB_NAME w)))).
  { intros st Hst. rewrite db_transact_tables.
    now destruct (calls_succeed 4 (script w)). }
  split; [|split].
  - intros winner loser Hw Hl. rewrite reportMatch_as_transact.
    apply Hafter. split; cbn [apply_statement players matches].
    + exact Hnd.
    + intros m Hm. apply in_app_or in Hm. destruct Hm as [Hm|[<-|[]]].
      * now apply Hfk.
      * now split.
  - intros clean assigned name Hfresh. rewrite registerPlayer_as_transact.
    apply Hafter. split; cbn [apply_statement players matches].
    + rewrite map_app. cbn [map fst].
      apply NoDup_app; [exact Hnd | repeat constructor; intros [] |].
      intros x Hx [<-|[]]. contradiction.
    + intros m Hm. rewrite map_app.
      split; apply in_or_app; left; now apply Hfk.
  - rewrite deleteMatches_as_transact.
    apply Hafter. split; cbn [apply_statement players matches].
    + exact Hnd.
    + intros m [].
Qed.

Lemma writes_keep_schema_witness :
  (forall winner loser,
      In winner (map fst (players four_players)) ->
      In loser (map fst (players four_players)) ->
      schema_ok (tables (snd (reportMatch winner loser (store four_players [])))))
  /\ (forall clean assigned name,
         ~ In assigned (map fst (players four_players)) ->
         schema_ok (tables (snd (registerPlayer clean assigned name
                                                (store four_players [])))))
  /\ schema_ok (tables (snd (deleteMatches (store four_players [])))).
Proof.
  apply (writes_keep_schema (store four_players [])).
  split.
  - simpl. repeat constructor; simpl; intuition discriminate.
  - intros m [<-|[<-|[]]]; simpl; auto 10.
Defined.

(** X8.  When connect, cursor, execute and commit succeed and the close
    call raises, whatever the exception, a function that writes raises
    that exception unchanged, and its statement is recorded all the same. *)
Theorem commit_survives_close_failure
        (w : World) (e : exn) (rest : list (option exn)) :
  script w = [None; None; None; None; Some e] ++ rest ->
  (forall winner loser,
      fst (reportMatch winner loser w) = Raise e
      /\ tables (snd (reportMatch winner loser w))
         = mkTables (players (tables w))
                    (matches (tables w) ++ [(winner, loser)]))
  /\ (forall clean assigned name,
         fst (registerPlayer clean assigned name w) = Raise e
         /\ tables (snd (registerPlayer clean assigned name w))
            = mkTables (players (tables w) ++ [(assigned, clean name)])
                       (matches (tables w)))
  /\ (fst (deleteMatches w) = Raise e
      /\ tables (snd (deleteMatches w)) = mkTables (players (tables w)) [])
  /\ (fst (deletePlayers w) = Raise e
      /\ tables (snd (deletePlayers w)) = mkTables [] (matches (tables w))).
Proof.
  intros Hs. destruct w as [t o s tr]. cbn [script] in Hs. subst s.
  repeat split.
Qed.

Lemma commit_survives_close_failure_witness :
  (forall winner loser,
      fst (reportMatch winner loser
             (store four_players [None; None; None; None;
                                  Some (PyExc "InterfaceError" "closed")]))
      = Raise (PyExc "InterfaceError" "closed")
      /\ tables (snd (reportMatch winner loser
             (store four_players [None; None; None; None;
                                  Some (PyExc "InterfaceError" "closed")])))
         = mkTables (players four_players)
                    (matches four_players ++ [(winner, loser)]))
  /\ (forall clean assigned name,
         fst (registerPlayer clean assigned name
                (store four_players [None; None; None; None;
                                     Some (PyExc "InterfaceError" "closed")]))
         = Raise (PyExc "InterfaceError" "closed")
         /\ tables (snd (registerPlayer clean assigned name
                (store four_players [None; None; None; None;
                                     Some (PyExc "InterfaceError" "closed")])))
            = mkTables (players four_players ++ [(assigned, clean name)])
                       (matches four_players))
  /\ (fst (deleteMatches
             (store four_players [None; None; None; None;
                                  Some (PyExc "InterfaceError" "closed")]))
      = Raise (PyExc "InterfaceError" "closed")
      /\ tables (snd (deleteMatches
             (store four_players [None; None; None; None;
                                  Some (PyExc "InterfaceError" "closed")])))
         = mkTables (players four_players) [])
  /\ (fst (deletePlayers
             (store four_players [None; None; None; None;
                                  Some (PyExc "InterfaceError" "closed")]))
      = Raise (PyExc "InterfaceError" "closed")
      /\ tables (snd (deletePlayers
             (store four_players [None; None; None; None;
                                  Some (PyExc "InterfaceError" "closed")])))
         = mkTables [] (matches four_players)).
Proof.
  apply (commit_survives_close_failure
           (store four_players [None; None; None; None;
                                Some (PyExc "InterfaceError" "closed")])
           (PyExc "InterfaceError" "closed") []).
  reflexivity.
Defined.

End Writes.

(** ** The functions that read *)

Section Reads.

(** X9.  When the store raises, in the connect, cursor, execute or
    fetchall call of a function that reads, an exception that is not a
    DatabaseError, and the close call succeeds, the exception reaches
    the caller unchanged, from [playerStandings], [swissPairings] and
    [countPlayers] alike.  Each of them makes the driver calls up to the
    failed one, once each, and then only closes the connection, and that
    only when [connect] had returned: nothing is rolled back and nothing
    is printed. *)
Theorem other_exception_propagates
        (w : World) (k : nat) (cls msg : string) (rest : list (option exn)) :
  script w = repeat None k ++ Some (PyExc cls msg) :: rest ->
  (k < 4)%nat ->
  no_faults rest ->
  let events statement :=
    (if (2 <=? k)%nat then [EClose] else [])
    ++ rev (firstn (S k) [EConnect "dbname=tournament"; ECursor;
                          EExecute statement; EFetchall]) in
  (fst (playerStandings w) = Raise (PyExc cls msg)
   /\ trace (snd (playerStandings w)) = events "plyr_stnd_q" ++ trace w)
  /\ (fst (swissPairings w) = Raise (PyExc cls msg)
      /\ trace (snd (swissPairings w)) = events "plyr_stnd_q" ++ trace w)
  /\ (fst (countPlayers w) = Raise (PyExc cls msg)
      /\ trace (snd (countPlayers w)) = events "count_q" ++ trace w)
  /\ (forall statement,
         ~ In ERollback (events statement)
         /\ forall line, ~ In (EPrint line) (events statement)).
Proof.
  intros Hs Hk Hrest.
  destruct w as [t o s tr]. cbn [script trace] in *. subst s.
  destruct rest as [|r1 rest];
    [|apply no_faults_cons in Hrest; destruct Hrest as [-> Hrest]].
  all: destruct k as [|[|[|[|k]]]]; try lia.
  all: cbv zeta.
  all: repeat (split; [split; reflexivity|]).
  all: intros statement; split; [|intros line]; simpl; intuition discriminate.
Qed.

Lemma other_exception_propagates_witness :
  (fst (playerStandings
          (store four_players
                 [None; None; Some (PyExc "InterfaceError" "cursor closed")]))
   = Raise (PyExc "InterfaceError" "cursor closed")
   /\ trace (snd (playerStandings
                    (store four_players
                           [None; None;
                            Some (PyExc "InterfaceError" "cursor closed")])))
      = [EClose; EExecute "plyr_stnd_q"; ECursor;
         EConnect "dbname=tournament"])
  /\ (fst (swissPairings
             (store four_players
                    [None; None; Some (PyExc "InterfaceError" "cursor closed")]))
      = Raise (PyExc "InterfaceError" "cursor closed")
      /\ trace (snd (swissPairings
                       (store four_players
                              [None; None;
                               Some (PyExc "InterfaceError" "cursor closed")])))
         = [EClose; EExecute "plyr_stnd_q"; ECursor;
            EConnect "dbname=tournament"])
  /\ (fst (countPlayers
             (store four_players
                    [None; None; Some (PyExc "InterfaceError" "cursor closed")]))
      = Raise (PyExc "InterfaceError" "cursor closed")
      /\ trace (snd (countPlayers
                       (store four_players
                              [None; None;
                               Some (PyExc "InterfaceError" "cursor closed")])))
         = [EClose; EExecute "count_q"; ECursor;
            EConnect "dbname=tournament"])
  /\ (forall statement,
         ~ In ERollback
              [EClose; EExecute statement; ECursor;
               EConnect "dbname=tournament"]
         /\ forall line,
              ~ In (EPrint line)
                   [EClose; EExecute statement; ECursor;
                    EConnect "dbname=tournament"]).
Proof.
  apply (other_exception_propagates
           (store four_players
                  [None; None; Some (PyExc "InterfaceError" "cursor closed")])
           2 "InterfaceError" "cursor closed" []).
  - reflexivity.
  - lia.
  - constructor.
Defined.

(** X10.  Whatever the store does, every function of the module that
    opens a connection calls close once when both calls of [connect]
    succeeded, and never when one of them raised. *)
Theorem connection_closed_iff_connected (w : World) :
  let expected :=
    (closes (trace w) + (if calls_succeed 2 (script w) then 1 else 0))%nat in
  closes (trace (snd (playerStandings w))) = expected
  /\ closes (trace (snd (countPlayers w))) = expected
  /\ (forall st dbname,
         closes (trace (snd (db_transact st dbname w))) = expected)
  /\ (forall clean assigned name,
         closes (trace (snd (registerPlayer clean assigned name w))) = expected)
  /\ (forall winner loser,
         closes (trace (snd (reportMatch winner loser w))) = expected).
Proof.
  assert (Hw : forall st dbname,
             closes (trace (snd (db_transact st dbname w)))
             = (closes (trace w)
                + (if calls_succeed 2 (script w) then 1 else 0))%nat).
  { intros st dbname. destruct w as [t o s tr].
    unfold calls_succeed, closes. unfold_write. cbn. all_scripts; lia. }
  cbv zeta. split; [|split; [|split; [|split]]].
  - destruct w as [t o s tr]. unfold calls_succeed, closes. unfold_read. cbn.
    all_scripts; lia.
  - destruct w as [t o s tr]. unfold calls_succeed, closes. unfold_read. cbn.
    all_scripts; lia.
  - exact Hw.
  - intros clean assigned name. rewrite registerPlayer_as_transact. apply Hw.
  - intros winner loser. rewrite reportMatch_as_transact. apply Hw.
Qed.

(** X11.  When connect, cursor, execute and fetchall succeed and the
    close call raises, whatever the exception, [playerStandings],
    [swissPairings] and [countPlayers] raise that exception unchanged, a
    DatabaseError included, and the rows that were fetched are lost. *)
Theorem close_failure_replaces_result
        (w : World) (e : exn) (rest : list (option exn)) :
  script w = [None; None; None; None; Some e] ++ rest ->
  fst (playerStandings w) = Raise e
  /\ fst (swissPairings w) = Raise e
  /\ fst (countPlayers w) = Raise e.
Proof.
  intros Hs. destruct w as [t o s tr]. cbn [script] in Hs. subst s.
  split; [reflexivity|]. split; [|reflexivity].
  now apply swissPairings_raise.
Qed.

Lemma close_failure_replaces_result_witness :
  fst (playerStandings
         (store four_players
                [None; None; None; None; Some (DatabaseError "gone")]))
  = Raise (DatabaseError "gone")
  /\ fst (swissPairings
            (store four_players
                   [None; None; None; None; Some (DatabaseError "gone")]))
     = Raise (DatabaseError "gone")
  /\ fst (countPlayers
            (store four_players
                   [None; None; None; None; Some (DatabaseError "gone")]))
     = Raise (DatabaseError "gone").
Proof.
  apply (close_failure_replaces_result
           (store four_players
                  [None; None; None; None; Some (DatabaseError "gone")])
           (DatabaseError "gone") []).
  reflexivity.
Defined.

End Reads.

(** ** The standings and the pairs *)

Section Rows.

(** X12.  For tables that satisfy the schema and a store that does not
    fail, the ids and names that [playerStandings] returns are those of
    the registered players, each player once, in the order the store
    chooses. *)
Theorem standings_list_registered_players (w : World) :
  schema_ok (tables w) ->
  no_faults (script w) ->
  exists standings,
    fst (playerStandings w) = Return standings
    /\ Permutation (map (fun e => (player_id e, player_name e)) standings)
                   (map (fun p => (Some (fst p), Some (snd p)))
                        (players (tables w))).
Proof.
  intros Hschema Hok. exists (fetched w).
  split; [now apply playerStandings_ok|].
  rewrite (Permutation_map _ (fetched_perm w)).
  rewrite (plyr_stnd_rows_schema _ Hschema), map_map. reflexivity.
Qed.

Lemma standings_list_registered_players_witness :
  exists standings,
    fst (playerStandings (store four_players [])) = Return standings
    /\ Permutation (map (fun e => (player_id e, player_name e)) standings)
                   (map (fun p => (Some (fst p), Some (snd p)))
                        (players four_players)).
Proof.
  apply (standings_list_registered_players (store four_players [])).
  - split.
    + simpl. repeat constructor; simpl; intuition discriminate.
    + intros m [<-|[<-|[]]]; simpl; auto 10.
  - constructor.
Defined.

(** Every fetched row is the row of a registered player or the row of
    an id of the CTE. *)
Lemma fetched_row_shape (w : World) (e : StandingEntry) :
  In e (fetched w) ->
  (exists p, In p (players (tables w)) /\ e = entry_of (tables w) p)
  \/ (exists k, e = stray_entry (cte_row (tables w) k)).
Proof.
  rewrite fetched_In, plyr_stnd_rows_eq, in_app_iff, !in_map_iff.
  intros [[p [<- Hp]]|[s [<- Hs]]].
  - left. now exists p.
  - right. unfold strays in Hs. apply filter_In in Hs. destruct Hs as [Hs _].
    rewrite player_standing_rows in Hs. apply in_map_iff in Hs.
    destruct Hs as [k [<- _]]. now exists k.
Qed.

(** X13.  With a store that does not fail, in every entry that
    [playerStandings] returns the number of wins is at least 0 and at
    most the number of matches played. *)
Theorem wins_at_most_played (w : World) :
  no_faults (script w) ->
  exists standings,
    fst (playerStandings w) = Return standings
    /\ forall e, In e standings -> 0 <= matches_won e <= total_matches e.
Proof.
  intros Hok. exists (fetched w). split; [now apply playerStandings_ok|].
  intros e Hin.
  destruct (fetched_row_shape w e Hin) as [[p [_ ->]]|[k ->]];
    cbn [entry_of stray_entry cte_row matches_won total_matches
         cte_wins cte_total];
    unfold won, lost;
    match goal with
    | |- 0 <= Z.of_nat ?a <= Z.of_nat ?a + Z.of_nat ?b =>
        generalize a, b; intros x y; lia
    end.
Qed.

Lemma wins_at_most_played_witness :
  exists standings,
    fst (playerStandings (store four_players [])) = Return standings
    /\ forall e, In e standings -> 0 <= matches_won e <= total_matches e.
Proof.
  apply (wins_at_most_played (store four_players [])). constructor.
Defined.

Lemma sum_played_perm (l l' : list StandingEntry) :
  Permutation l l' -> sum_played l = sum_played l'.
Proof. induction 1; simpl; lia. Qed.

Lemma sum_played_entries (t : Tables) (ps : list player) :
  sum_played (map (entry_of t) ps)
  = zsum (won t) (map fst ps) + zsum (lost t) (map fst ps).
Proof.
  induction ps as [|p ps IH]; simpl; [reflexivity|]. rewrite IH. lia.
Qed.

(** X14.  For tables that satisfy the schema and a store that does not
    fail, the numbers of matches played in the entries that
    [playerStandings] returns add up to twice the number of recorded
    matches. *)
Theorem played_add_up_to_twice_matches (w : World) :
  schema_ok (tables w) ->
  no_faults (script w) ->
  exists standings,
    fst (playerStandings w) = Return standings
    /\ sum_played standings
       = 2 * Z.of_nat (List.length (matches (tables w))).
Proof.
  intros Hschema Hok. exists (fetched w).
  split; [now apply playerStandings_ok|].
  rewrite (sum_played_perm _ _ (fetched_perm w)).
  rewrite (plyr_stnd_rows_schema _ Hschema), sum_played_entries.
  unfold won, lost. destruct Hschema as [Hnd Hfk].
  rewrite (zsum_count_occ _ (map fst (matches (tables w))) Hnd).
  2:{ intros k Hin. apply in_map_iff in Hin. destruct Hin as [m [<- Hm]].
      now apply Hfk. }
  rewrite (zsum_count_occ _ (map snd (matches (tables w))) Hnd).
  2:{ intros k Hin. apply in_map_iff in Hin. destruct Hin as [m [<- Hm]].
      now apply Hfk. }
  rewrite !length_map.
  unfold match_row. lia.
Qed.

Lemma played_add_up_to_twice_matches_witness :
  exists standings,
    fst (playerStandings (store four_players [])) = Return standings
    /\ sum_played standings = 2 * Z.of_nat (List.length (matches four_players)).
Proof.
  apply (played_add_up_to_twice_matches (store four_players [])).
  - split.
    + simpl. repeat constructor; simpl; intuition discriminate.
    + intros m [<-|[<-|[]]]; simpl; auto 10.
  - constructor.
Defined.

Lemma adjacent_pairs_members (l : list StandingEntry) :
  Nat.even (List.length l) = true ->
  flat_map members (adjacent_pairs l)
  = map (fun e => (player_id e, player_name e)) l.
Proof.
  induction l as [|a|a b l IH] using list_two_ind; intros Hev;
    [reflexivity | discriminate Hev |].
  cbn [List.length] in Hev. rewrite Nat.even_succ_succ in Hev.
  cbn [adjacent_pairs flat_map map]. rewrite (IH Hev). reflexivity.
Qed.

(** X15.  Once [playerStandings] has returned an even number of
    entries, the pairs that [swissPairings] returns, laid end to end,
    are the ids and names of the standings, entry by entry and in the
    same order: no player is dropped, repeated or moved. *)
Theorem pairs_cover_standings_in_order
        (w : World) (standings : list StandingEntry) :
  fst (playerStandings w) = Return standings ->
  Nat.even (List.length standings) = true ->
  exists pairs,
    fst (swissPairings w) = Return pairs
    /\ flat_map members pairs
       = map (fun e => (player_id e, player_name e)) standings.
Proof.
  intros Hst Hev. exists (adjacent_pairs standings).
  rewrite (swissPairings_after w standings Hst), Hev.
  split; [reflexivity | now apply adjacent_pairs_members].
Qed.

Lemma pairs_cover_standings_in_order_witness :
  exists pairs,
    fst (swissPairings (store four_players [])) = Return pairs
    /\ flat_map members pairs
       = map (fun e => (player_id e, player_name e))
             (fetched (store four_players [])).
Proof.
  apply (pairs_cover_standings_in_order (store four_players [])
           (fetched (store four_players []))).
  - reflexivity.
  - reflexivity.
Defined.

Lemma existsb_registered (ps : list player) (k : Z) :
  existsb (fun p => Z.eqb (fst p) k) ps = existsb (Z.eqb k) (map fst ps).
Proof.
  induction ps as [|p ps IH]; simpl; [reflexivity|].
  now rewrite IH, (Z.eqb_sym (fst p) k).
Qed.

Lemma strays_rows (t : Tables) :
  strays t =
  map (cte_row t)
      (filter (fun k => negb (existsb (Z.eqb k) (map fst (players t))))
              (cte_keys t)).
Proof.
  unfold strays. rewrite player_standing_rows, filter_map_comm. f_equal.
  apply filter_ext. intros k. f_equal.
  rewrite <- existsb_registered. reflexivity.
Qed.

Lemma strays_length (t : Tables) :
  List.length (strays t) = List.length (unregistered t).
Proof.
  rewrite strays_rows, length_map. apply Permutation_length.
  apply NoDup_Permutation.
  - apply NoDup_filter, cte_keys_NoDup.
  - apply NoDup_nodup.
  - intros k. unfold unregistered.
    rewrite nodup_In, !filter_In, cte_keys_In, in_app_iff. reflexivity.
Qed.

Lemma filter_length_perm {X : Type} (f : X -> bool) (l l' : list X) :
  Permutation l l' ->
  List.length (filter f l) = List.length (filter f l').
Proof.
  induction 1 as [|x l l' _ IH|x y l|l l' l'' _ IH1 _ IH2]; simpl.
  - reflexivity.
  - destruct (f x); simpl; now rewrite IH.
  - destruct (f x), (f y); reflexivity.
  - now rewrite IH1.
Qed.

Lemma null_rows (t : Tables) :
  filter null_id (plyr_stnd_rows t) = map stray_entry (strays t).
Proof.
  rewrite plyr_stnd_rows_eq, filter_app.
  replace (filter null_id (map (entry_of t) (players t))) with (@nil StandingEntry).
  - cbn [app]. induction (strays t) as [|s l IH]; [reflexivity|].
    cbn. now rewrite IH.
  - induction (players t) as [|p l IH]; [reflexivity|]. cbn. exact IH.
Qed.

(** X16.  With a store that does not fail, [playerStandings] returns one
    entry for every registered player and, besides, one entry for every
    id that some match names and that is not registered; these further
    entries, and only they, have no id, and an entry has no name exactly
    when it has no id. *)
Theorem unregistered_ids_give_null_rows (w : World) :
  no_faults (script w) ->
  exists standings,
    fst (playerStandings w) = Return standings
    /\ List.length standings
       = (List.length (players (tables w))
          + List.length (unregistered (tables w)))%nat
    /\ List.length (filter null_id standings)
       = List.length (unregistered (tables w))
    /\ forall e, In e standings ->
         (player_id e = None <-> player_name e = None).
Proof.
  intros Hok. exists (fetched w). split; [now apply playerStandings_ok|].
  split; [|split].
  - rewrite (Permutation_length (fetched_perm w)), plyr_stnd_rows_eq.
    now rewrite length_app, !length_map, strays_length.
  - rewrite (filter_length_perm _ _ _ (fetched_perm w)), null_rows.
    now rewrite length_map, strays_length.
  - intros e Hin.
    destruct (fetched_row_shape w e Hin) as [[p [_ ->]]|[k ->]]; cbn;
      split; intros H; try reflexivity; discriminate H.
Qed.

Lemma unregistered_ids_give_null_rows_witness :
  exists standings,
    fst (playerStandings (store unregistered_sample [])) = Return standings
    /\ List.length standings
       = (List.length (players unregistered_sample)
          + List.length (unregistered unregistered_sample))%nat
    /\ List.length (filter null_id standings)
       = List.length (unregistered unregistered_sample)
    /\ forall e, In e standings ->
         (player_id e = None <-> player_name e = None).
Proof.
  apply (unregistered_ids_give_null_rows (store unregistered_sample [])).
  constructor.
Defined.

End Rows.
